(** * PurePixel: the per-image processing pipeline

    A shallow embedding of the image registry (the zustand store), of the
    canvas transform it calls, and of the image worker, with the properties
    of the specification stated over them.

    The repository carries the store in two revisions:
    - [Plain]: [src/store/useImageStore.ts], which draws every image at its
      own size and hands the requested format to the encoder as it is;
    - [Resizing]: the store text that follows the slider component in
      [src/components/ComparisonSlider.tsx] (lines 200-752), which adds
      [calculateResizedDimensions], the 4096 ceiling, the AVIF probe, the
      PNG retry and the 30 s load timeout.
    The registry operations are the same text in both, except where a
    definition below takes the revision as an argument.  The worker is
    [workers/image.worker.ts] ([src/unnamed/part_000]); the types are
    [types/index.ts] ([src/unnamed/part_001]).

    Numbers.  Pixel counts and byte counts are integers ([Z]).  The scale
    factor, the encoder quality and the compression ratio are JavaScript
    doubles; they are modelled by exact rationals ([Q]), which is what the
    double computation yields whenever its intermediate values are exactly
    representable, and may differ from it by the rounding of the
    intermediate products and quotients otherwise.  Strings that the code only compares or
    passes on (MIME types, ids, URLs, messages) are [string]; file names,
    which the code inspects character by character, are lists of UTF-16
    code units. *)

From stdpp Require Import gmap strings list fin_maps.
From Stdlib Require Import QArith Qround Qminmax Lqa.

Local Open Scope Z_scope.

(* ===================================================================== *)
(** ** Data model ([types/index.ts]) *)
(* ===================================================================== *)

Inductive Revision := Plain | Resizing.

Inductive ProcessStatus := Idle | Processing | Done | Error.

Inductive ProcessMode := Convert | Compress | Both.

Inductive ResizeMode := ResizeNone | ResizeScale | ResizeCustom.

#[global] Instance Revision_eq_dec : EqDecision Revision.
Proof. solve_decision. Defined.
#[global] Instance ProcessStatus_eq_dec : EqDecision ProcessStatus.
Proof. solve_decision. Defined.
#[global] Instance ProcessMode_eq_dec : EqDecision ProcessMode.
Proof. solve_decision. Defined.
#[global] Instance ResizeMode_eq_dec : EqDecision ResizeMode.
Proof. solve_decision. Defined.

(** A JavaScript string seen as its UTF-16 code units. *)
Abbreviation jsstr := (list N).

(** The code units of an ASCII literal. *)
Definition units (s : string) : jsstr :=
  Ascii.N_of_ascii <$> String.list_ascii_of_string s.

(** [File]: name, declared MIME type, byte length; the bytes themselves are
    an opaque token. *)
Record File := mkFile {
  file_name : jsstr;
  file_type : string;
  file_size : Z;
  file_data : N;
}.

Record Blob := mkBlob {
  blob_type : string;
  blob_size : Z;
  blob_data : N;
}.

(** [ImageConfig['settings']]. *)
Record Settings := mkSettings {
  format : string;
  enableCompression : bool;
  mode : ProcessMode;
  width : option Z;
  height : option Z;
  maintainAspectRatio : bool;
  scale : option Q;
}.

(** [ImageConfig['result']]. *)
Record Result := mkResult {
  res_blob : Blob;
  res_url : string;
  res_size : Z;
  originalSize : Z;
  compressionRatio : Q;
}.

Record ImageConfig := mkImage {
  img_id : string;
  img_file : File;
  previewUrl : string;
  status : ProcessStatus;
  errorMessage : option string;
  settings : Settings;
  result : option Result;
}.

(** [GlobalSettings].  [resizeMode] is optional here because the [Plain]
    default object does not define it. *)
Record GlobalSettings := mkGlobal {
  g_format : string;
  g_enableCompression : bool;
  g_mode : ProcessMode;
  g_maintainAspectRatio : bool;
  g_resizeMode : option ResizeMode;
  g_scale : option Q;
  g_width : option Z;
  g_height : option Z;
}.

(** [AppState]. *)
Record State := mkState {
  images : list ImageConfig;
  globalSettings : GlobalSettings;
  isProcessing : bool;
}.

(** [Partial<ImageConfig['settings']>]: [None] is an absent key.  For the
    optional fields the inner option is the value of a present key, which
    may be [undefined]. *)
Record PartialSettings := mkPartial {
  p_format : option string;
  p_enableCompression : option bool;
  p_mode : option ProcessMode;
  p_width : option (option Z);
  p_height : option (option Z);
  p_maintainAspectRatio : option bool;
  p_scale : option (option Q);
}.

(** [Partial<GlobalSettings>]. *)
Record PartialGlobal := mkPartialGlobal {
  pg_format : option string;
  pg_enableCompression : option bool;
  pg_mode : option ProcessMode;
  pg_maintainAspectRatio : option bool;
  pg_resizeMode : option (option ResizeMode);
  pg_scale : option (option Q);
  pg_width : option (option Z);
  pg_height : option (option Z);
}.

(** What a thrown value is to [error instanceof Error ? error.message : ..]. *)
Inductive Exn :=
| ErrorObject (message : string)
| OtherValue.

(** The fate of a promise. [Pending] is a promise that never settles. *)
Inductive Outcome (A : Type) :=
| Resolved (a : A)
| Rejected (e : Exn)
| Pending.
Arguments Resolved {A} a.
Arguments Rejected {A} e.
Arguments Pending {A}.

(* ===================================================================== *)
(** ** Pure helpers of the store *)
(* ===================================================================== *)

Definition in_range (lo hi c : N) : bool := ((lo <=? c) && (c <=? hi))%N.

(** The character class [a-zA-Z0-9_\-一-龥.] of [sanitizeFileName]. *)
Definition allowed (c : N) : bool :=
  in_range 97 122 c || in_range 65 90 c || in_range 48 57 c
  || (c =? 95)%N || (c =? 45)%N || in_range 0x4e00 0x9fa5 c || (c =? 46)%N.

(** [name.replace(/[^a-zA-Z0-9_\-一-龥.]/g, '_')]. *)
Definition sanitizeFileName (name : jsstr) : jsstr :=
  (fun c => if allowed c then c else 95%N) <$> name.

(** [getExtension]: the table, and ['png'] for a format it does not list.
    The callers pass MIME types, which are never names of the properties
    an object literal inherits. *)
Definition getExtension (fmt : string) : string :=
  if bool_decide (fmt = "image/jpeg") then "jpg"
  else if bool_decide (fmt = "image/png") then "png"
  else if bool_decide (fmt = "image/webp") then "webp"
  else if bool_decide (fmt = "image/avif") then "avif"
  else if bool_decide (fmt = "image/gif") then "gif"
  else "png".

(** [name.replace(/\.[^/.]+$/, '')]: the first position where a dot is
    followed, up to the end, by one or more characters other than [/] and
    [.] is where the name is cut. *)
Fixpoint stripExtension (s : jsstr) : jsstr :=
  match s with
  | [] => []
  | c :: r =>
      if (c =? 46)%N && negb (bool_decide (r = []))
         && forallb (fun d => negb (d =? 47)%N && negb (d =? 46)%N) r
      then []
      else c :: stripExtension r
  end.

(** [`${sanitizeFileName(baseName)}_purepixel.${ext}`]. *)
Definition exportFileName (img : ImageConfig) : jsstr :=
  let baseName := stripExtension (file_name (img_file img)) in
  let ext := getExtension (format (settings img)) in
  sanitizeFileName baseName ++ units "_purepixel." ++ units ext.

Definition defaultGlobalSettings (rev : Revision) : GlobalSettings :=
  {| g_format := "image/webp";
     g_enableCompression := true;
     g_mode := Convert;
     g_maintainAspectRatio := true;
     g_resizeMode := match rev with Plain => None | Resizing => Some ResizeNone end;
     g_scale := Some 1%Q;
     g_width := None;
     g_height := None |}.

(** The quality block shared by both [convertImage]s and by the worker:
    [let quality = 1.0; if (enableCompression) { jpeg/webp: 0.92; avif: 0.9 }]. *)
Definition pickQuality (fmt : string) (enableCompression : bool) : Q :=
  if enableCompression then
    if bool_decide (fmt = "image/jpeg") || bool_decide (fmt = "image/webp") then 0.92%Q
    else if bool_decide (fmt = "image/avif") then 0.9%Q
    else 1.0%Q
  else 1.0%Q.

(* ===================================================================== *)
(** ** The platform, as the transform sees it *)
(* ===================================================================== *)

(** What [img.src = url] leads to: [onload] with the decoded size,
    [onerror], or neither event. *)
Inductive LoadResult :=
| Loaded (w h : Z)
| LoadFailed
| LoadStalled.

(** One call of [canvas.toBlob] / [canvas.convertToBlob]: the canvas size,
    the bytes drawn on it ([None] for a blank canvas), the MIME type and the
    quality asked for. *)
Record EncodeReq := mkReq {
  req_width : Z;
  req_height : Z;
  req_source : option N;
  req_format : string;
  req_quality : Q;
}.

(** The browser behind [convertImage] and [compressImage]. *)
Record Runtime := mkRuntime {
  (** [new Image()] with [img.src = URL.createObjectURL(file)] *)
  loadImage : File -> LoadResult;
  (** [canvas.getContext('2d')] on a canvas of the given size is not null *)
  getContext2d : Z -> Z -> bool;
  (** an exception raised while the canvas is set up and drawn on *)
  drawImage : File -> Z -> Z -> option Exn;
  (** the blob handed to the callback of [canvas.toBlob], or null *)
  toBlob : EncodeReq -> option Blob;
  (** [imageCompression(file, options)] of browser-image-compression *)
  imageCompression : File -> Exn + Blob;
  (** [URL.createObjectURL(blob)] *)
  createObjectURL : Blob -> string;
  (** [FileReader.readAsDataURL(blob)]: [onload] with the URL, or [onerror] *)
  readAsDataURL : Blob -> option string;
}.

(** The worker's global scope. *)
Record WorkerRuntime := mkWorkerRuntime {
  (** [createImageBitmap(blob)]: the bitmap's size, or the rejection *)
  createImageBitmap : string -> N -> Exn + (Z * Z);
  (** [new OffscreenCanvas(w, h).getContext('2d')] is not null *)
  offscreenContext2d : Z -> Z -> bool;
  (** [canvas.convertToBlob({type, quality})] *)
  convertToBlob : EncodeReq -> Exn + Blob;
}.

(** [new File([blob], 'image.png', { type: blob.type })]. *)
Definition fileOfBlob (b : Blob) : File :=
  {| file_name := units "image.png"; file_type := blob_type b;
     file_size := blob_size b; file_data := blob_data b |}.

(** [compressImage] on a [File], and on a [Blob] (wrapped in a [File]
    first).  The options object is a constant of the call. *)
Definition compressImage (rt : Runtime) (f : File) : Outcome Blob :=
  match imageCompression rt f with
  | inr b => Resolved b
  | inl e => Rejected e
  end.

Definition compressBlob (rt : Runtime) (b : Blob) : Outcome Blob :=
  compressImage rt (fileOfBlob b).

(** An engine run: the encoder calls it made, in order, and its outcome. *)
Abbreviation Run := (list EncodeReq * Outcome Blob)%type.

(* ===================================================================== *)
(** ** [convertImage] of [src/store/useImageStore.ts] *)
(* ===================================================================== *)

Module PlainEngine.

Definition convertImage (rt : Runtime) (f : File) (fmt : string)
    (enableCompression : bool) : Run :=
  match loadImage rt f with
  | LoadStalled => ([], Pending)
  | LoadFailed => ([], Rejected (ErrorObject "图片加载失败"))
  | Loaded w h =>
      (* canvas.width = img.width; canvas.height = img.height *)
      if negb (getContext2d rt w h) then
        ([], Rejected (ErrorObject "无法创建 Canvas 上下文"))
      else
        match drawImage rt f w h with
        | Some _ => ([], Pending) (* uncaught in the handler: never settles *)
        | None =>
            let quality := pickQuality fmt enableCompression in
            let req := mkReq w h (Some (file_data f)) fmt quality in
            ([req],
             match toBlob rt req with
             | Some blob => Resolved blob
             | None => Rejected (ErrorObject "转换失败")
             end)
        end
  end.

End PlainEngine.

(* ===================================================================== *)
(** ** [convertImage] of the resizing revision *)
(* ===================================================================== *)

Module ResizingEngine.

Record ResizeOptions := mkResize {
  resizeMode : option ResizeMode;
  ro_scale : option Q;
  ro_width : option Z;
  ro_height : option Z;
  ro_maintainAspectRatio : bool;
}.

(** [Math.round]: the nearest integer, halves upwards. *)
Definition round (x : Q) : Z := Qfloor (x + (1 # 2))%Q.

(** A number that is truthy: neither [undefined] nor 0. *)
Definition truthyZ (o : option Z) : option Z :=
  match o with Some z => if z =? 0 then None else Some z | None => None end.

Definition truthyQ (o : option Q) : option Q :=
  match o with Some q => if Qeq_bool q 0 then None else Some q | None => None end.

(** [calculateResizedDimensions].  The quotients by the original width
    and height are the JavaScript ones for a decoded bitmap, whose sides
    are positive. *)
Definition calculateResizedDimensions (originalWidth originalHeight : Z)
    (options : ResizeOptions) : Z * Z :=
  match resizeMode options, truthyQ (ro_scale options) with
  | Some ResizeNone, _ => (originalWidth, originalHeight)
  | Some ResizeScale, Some s =>
      (round (inject_Z originalWidth * s), round (inject_Z originalHeight * s))
  | Some ResizeCustom, _ =>
      let targetWidth := default originalWidth (truthyZ (ro_width options)) in
      let targetHeight := default originalHeight (truthyZ (ro_height options)) in
      if ro_maintainAspectRatio options then
        let aspectRatio := (inject_Z originalWidth / inject_Z originalHeight)%Q in
        match truthyZ (ro_width options), truthyZ (ro_height options) with
        | Some _, None =>
            (targetWidth, round (inject_Z targetWidth / aspectRatio))
        | None, Some _ =>
            (round (inject_Z targetHeight * aspectRatio), targetHeight)
        | Some w, Some h =>
            let scaleX := (inject_Z w / inject_Z originalWidth)%Q in
            let scaleY := (inject_Z h / inject_Z originalHeight)%Q in
            let s := Qmin scaleX scaleY in
            (round (inject_Z originalWidth * s), round (inject_Z originalHeight * s))
        | None, None => (targetWidth, targetHeight)
        end
      else (targetWidth, targetHeight)
  | _, _ => (originalWidth, originalHeight)
  end.

Definition maxDimension : Z := 4096.

(** [maxDimension / d] for an integer [d]: [None] is [Infinity], the
    quotient by 0. *)
Definition capRatio (d : Z) : option Q :=
  if d =? 0 then None else Some (inject_Z maxDimension / inject_Z d)%Q.

(** [Math.min] of two such quotients. *)
Definition minRatio (a b : option Q) : option Q :=
  match a, b with
  | Some x, Some y => Some (Qmin x y)
  | Some x, None => Some x
  | None, y => y
  end.

(** The ceiling inside [img.onload]: [finalWidth], [finalHeight]. *)
Definition clampDimensions (w h : Z) : Z * Z :=
  if (maxDimension <? w) || (maxDimension <? h) then
    match minRatio (capRatio w) (capRatio h) with
    | Some s => (round (inject_Z w * s), round (inject_Z h * s))
    | None => (0, 0) (* not reached: one side exceeds 4096 *)
    end
  else (w, h).

(** The size of the canvas for an image of the given size. *)
Definition planDimensions (w h : Z) (resizeOptions : option ResizeOptions) : Z * Z :=
  let '(w', h') :=
    match resizeOptions with
    | Some o => calculateResizedDimensions w h o
    | None => (w, h)
    end in
  clampDimensions w' h'.

(** The request [checkFormatSupport] makes: a blank 1x1 canvas encoded
    as AVIF at quality 0.5. *)
Definition probeReq : EncodeReq := mkReq 1 1 None "image/avif" 0.5%Q.

(** [checkFormatSupport]: the probes made and the answer. *)
Definition checkFormatSupport (rt : Runtime) (fmt : string) : list EncodeReq * bool :=
  if bool_decide (fmt = "image/avif") then
    ([probeReq],
     match toBlob rt probeReq with
     | Some blob => 0 <? blob_size blob
     | None => false
     end)
  else ([], true).

Definition getFallbackFormat (fmt : string) : string :=
  if bool_decide (fmt = "image/avif") then "image/webp" else fmt.

Definition exnText (e : Exn) : string :=
  match e with ErrorObject m => m | OtherValue => "未知错误" end.

Definition convertImage (rt : Runtime) (f : File) (fmt : string)
    (enableCompression : bool) (resizeOptions : option ResizeOptions) : Run :=
  let '(probes, isFormatSupported) := checkFormatSupport rt fmt in
  let targetFormat := if isFormatSupported then fmt else getFallbackFormat fmt in
  match loadImage rt f with
  | LoadStalled => (probes, Rejected (ErrorObject "图片加载超时，请重试"))
  | LoadFailed => (probes, Rejected (ErrorObject "图片加载失败，请检查文件是否损坏"))
  | Loaded w h =>
      let '(finalWidth, finalHeight) := planDimensions w h resizeOptions in
      if negb (getContext2d rt finalWidth finalHeight) then
        (probes, Rejected (ErrorObject "无法创建 Canvas 上下文"))
      else
        match drawImage rt f finalWidth finalHeight with
        | Some err =>
            (probes, Rejected (ErrorObject ("图片处理出错：" ++ exnText err)))
        | None =>
            let quality := pickQuality targetFormat enableCompression in
            let req := mkReq finalWidth finalHeight (Some (file_data f)) targetFormat quality in
            match toBlob rt req with
            | Some blob =>
                if 0 <? blob_size blob then (probes ++ [req], Resolved blob)
                else
                  let png := mkReq finalWidth finalHeight (Some (file_data f)) "image/png" 1.0%Q in
                  (probes ++ [req; png],
                   match toBlob rt png with
                   | Some pngBlob => Resolved pngBlob
                   | None => Rejected (ErrorObject "图片转换失败，请尝试其他格式")
                   end)
            | None =>
                let png := mkReq finalWidth finalHeight (Some (file_data f)) "image/png" 1.0%Q in
                (probes ++ [req; png],
                 match toBlob rt png with
                 | Some pngBlob => Resolved pngBlob
                 | None => Rejected (ErrorObject "图片转换失败，请尝试其他格式")
                 end)
            end
        end
  end.

End ResizingEngine.

(* ===================================================================== *)
(** ** The worker ([workers/image.worker.ts]) *)
(* ===================================================================== *)

Module Worker.

Record WorkerMessage := mkMessage {
  msg_type : ProcessMode;
  msg_id : string;
  imageData : N;
  mimeType : string;
  msg_format : string;
  msg_enableCompression : bool;
}.

Inductive WorkerResponse :=
| Progress (id : string) (progress : Z)
| Success (id : string) (blob : Blob) (size : Z)
| Failure (id : string) (error : string).

(** The block "确定输出格式和质量": [outputFormat] and [quality] from the
    message's [type], [mimeType], [format] and [enableCompression]. *)
Definition outputPolicy (type : ProcessMode) (mimeType fmt : string)
    (enableCompression : bool) : string * Q :=
  match type with
  | Convert | Both => (fmt, pickQuality fmt enableCompression)
  | Compress => (mimeType, 0.92%Q)
  end.

Definition errorText (e : Exn) : string :=
  match e with ErrorObject m => m | OtherValue => "处理失败" end.

(** [self.onmessage]: the encoder calls and the messages posted, in order. *)
Definition onmessage (wrt : WorkerRuntime) (m : WorkerMessage)
    : list EncodeReq * list WorkerResponse :=
  let id := msg_id m in
  match createImageBitmap wrt (mimeType m) (imageData m) with
  | inl e => ([], [Progress id 10; Failure id (errorText e)])
  | inr (w, h) =>
      if negb (offscreenContext2d wrt w h) then
        ([], [Progress id 10; Progress id 30;
              Failure id "无法创建 Canvas 上下文"])
      else
        let '(outputFormat, quality) :=
          outputPolicy (msg_type m) (mimeType m) (msg_format m)
                       (msg_enableCompression m) in
        let req := mkReq w h (Some (imageData m)) outputFormat quality in
        match convertToBlob wrt req with
        | inr resultBlob =>
            ([req], [Progress id 10; Progress id 30; Progress id 50;
                     Progress id 70; Progress id 90;
                     Success id resultBlob (blob_size resultBlob)])
        | inl e =>
            ([req], [Progress id 10; Progress id 30; Progress id 50;
                     Progress id 70; Failure id (errorText e)])
        end
  end.

End Worker.

(* ===================================================================== *)
(** ** The registry: synchronous actions *)
(* ===================================================================== *)

(** What the platform supplies for a new record: [generateId()] and the
    preview URL. *)
Record Token := mkToken { tok_id : string; tok_url : string }.

Definition isImage (f : File) : bool := String.prefix "image/" (file_type f).

(** [files.filter((file) => file.type.startsWith('image/'))]. *)
Definition validFiles (files : list File) : list File :=
  filter (fun f => isImage f) files.

(** The settings object of a new record.  The resizing revision also
    copies [width] and [height]. *)
Definition seedSettings (rev : Revision) (g : GlobalSettings) : Settings :=
  {| format := g_format g;
     enableCompression := g_enableCompression g;
     mode := g_mode g;
     maintainAspectRatio := g_maintainAspectRatio g;
     scale := g_scale g;
     width := match rev with Plain => None | Resizing => g_width g end;
     height := match rev with Plain => None | Resizing => g_height g end |}.

Definition newImage (rev : Revision) (g : GlobalSettings) (tok : Token) (f : File)
    : ImageConfig :=
  {| img_id := tok_id tok; img_file := f; previewUrl := tok_url tok;
     status := Idle; errorMessage := None;
     settings := seedSettings rev g; result := None |}.

(** The [set] at the end of [addFiles]: the records for [valid], built
    from the global settings [g] read when [addFiles] was called. *)
Definition appendImages (rev : Revision) (g : GlobalSettings) (tok : nat -> Token)
    (valid : list File) (st : State) : State :=
  {| images := images st ++ imap (fun k f => newImage rev g (tok k) f) valid;
     globalSettings := globalSettings st;
     isProcessing := isProcessing st |}.

(** [addFiles] run to its end with nothing in between. *)
Definition addFiles (rev : Revision) (tok : nat -> Token) (files : list File)
    (st : State) : State :=
  appendImages rev (globalSettings st) tok (validFiles files) st.

Definition removeImage (id : string) (st : State) : State :=
  {| images := filter (fun img => img_id img <> id) (images st);
     globalSettings := globalSettings st;
     isProcessing := isProcessing st |}.

(** [{ ...img.settings, ...settings }]. *)
Definition mergeSettings (s : Settings) (p : PartialSettings) : Settings :=
  {| format := default (format s) (p_format p);
     enableCompression := default (enableCompression s) (p_enableCompression p);
     mode := default (mode s) (p_mode p);
     width := default (width s) (p_width p);
     height := default (height s) (p_height p);
     maintainAspectRatio := default (maintainAspectRatio s) (p_maintainAspectRatio p);
     scale := default (scale s) (p_scale p) |}.

Definition mapImages (f : ImageConfig -> ImageConfig) (st : State) : State :=
  {| images := f <$> images st;
     globalSettings := globalSettings st;
     isProcessing := isProcessing st |}.

(** [state.images.map((img) => img.id === id ? f(img) : img)]. *)
Definition mapImage (id : string) (f : ImageConfig -> ImageConfig) (st : State) : State :=
  mapImages (fun img => if bool_decide (img_id img = id) then f img else img) st.

Definition updateSettings (id : string) (p : PartialSettings) (st : State) : State :=
  mapImage id (fun img =>
    {| img_id := img_id img; img_file := img_file img; previewUrl := previewUrl img;
       errorMessage := errorMessage img;
       settings := mergeSettings (settings img) p;
       status := Idle;
       result := None |}) st.

Definition mergeGlobal (g : GlobalSettings) (p : PartialGlobal) : GlobalSettings :=
  {| g_format := default (g_format g) (pg_format p);
     g_enableCompression := default (g_enableCompression g) (pg_enableCompression p);
     g_mode := default (g_mode g) (pg_mode p);
     g_maintainAspectRatio := default (g_maintainAspectRatio g) (pg_maintainAspectRatio p);
     g_resizeMode := default (g_resizeMode g) (pg_resizeMode p);
     g_scale := default (g_scale g) (pg_scale p);
     g_width := default (g_width g) (pg_width p);
     g_height := default (g_height g) (pg_height p) |}.

Definition updateGlobalSettings (p : PartialGlobal) (st : State) : State :=
  {| images := images st;
     globalSettings := mergeGlobal (globalSettings st) p;
     isProcessing := isProcessing st |}.

(** The settings object [applyGlobalSettings] writes: the record's own,
    with the global fields over them. *)
Definition overwriteSettings (rev : Revision) (g : GlobalSettings) (s : Settings)
    : Settings :=
  {| format := g_format g;
     enableCompression := g_enableCompression g;
     mode := g_mode g;
     maintainAspectRatio := g_maintainAspectRatio g;
     scale := g_scale g;
     width := match rev with Plain => width s | Resizing => g_width g end;
     height := match rev with Plain => height s | Resizing => g_height g end |}.

Definition applyGlobalSettings (rev : Revision) (st : State) : State :=
  let g := globalSettings st in
  mapImages (fun img =>
    {| img_id := img_id img; img_file := img_file img; previewUrl := previewUrl img;
       errorMessage := errorMessage img;
       settings := overwriteSettings rev g (settings img);
       status := Idle;
       result := None |}) st.

Definition clearAll (st : State) : State :=
  {| images := [];
     globalSettings := globalSettings st;
     isProcessing := isProcessing st |}.

Definition setProcessing (b : bool) (st : State) : State :=
  {| images := images st; globalSettings := globalSettings st; isProcessing := b |}.

Definition initialState (rev : Revision) : State :=
  {| images := []; globalSettings := defaultGlobalSettings rev; isProcessing := false |}.

(* ===================================================================== *)
(** ** [processSingleImage] *)
(* ===================================================================== *)

(** What a call of [processSingleImage] holds on to across its awaits: the
    id, the record found when it was called, and [globalSettings.resizeMode]
    as read at the top of the [try] (resizing revision). *)
Record Op := mkOp {
  op_id : string;
  op_image : ImageConfig;
  op_resizeMode : option ResizeMode;
}.

(** [images.find((img) => img.id === id)]. *)
Definition findImage (id : string) (imgs : list ImageConfig) : option ImageConfig :=
  List.find (fun img => bool_decide (img_id img = id)) imgs.

Definition markProcessing (img : ImageConfig) : ImageConfig :=
  {| img_id := img_id img; img_file := img_file img; previewUrl := previewUrl img;
     errorMessage := errorMessage img; settings := settings img;
     result := result img;
     status := Processing |}.

(** The synchronous head of [processSingleImage(id)], up to its first
    await: [None] when the function returns at [if (!image) return]. *)
Definition launch (id : string) (st : State) : State * option Op :=
  match findImage id (images st) with
  | None => (st, None)
  | Some image =>
      let st' := mapImage id markProcessing st in
      (st', Some (mkOp id image (g_resizeMode (globalSettings st'))))
  end.

(** Continue an engine run whose blob goes through one more stage. *)
Definition andThen (r : Run) (k : Blob -> Outcome Blob) : Run :=
  match r with
  | (reqs, Resolved b) => (reqs, k b)
  | (reqs, Rejected e) => (reqs, Rejected e)
  | (reqs, Pending) => (reqs, Pending)
  end.

Definition resizeOptionsOf (op : Op) : ResizingEngine.ResizeOptions :=
  let s := settings (op_image op) in
  {| ResizingEngine.resizeMode := op_resizeMode op;
     ResizingEngine.ro_scale := scale s;
     ResizingEngine.ro_width := width s;
     ResizingEngine.ro_height := height s;
     ResizingEngine.ro_maintainAspectRatio := maintainAspectRatio s |}.

(** The mode dispatch of [processSingleImage]: how [resultBlob] comes
    about. *)
Definition pipeline (rev : Revision) (rt : Runtime) (op : Op) : Run :=
  let image := op_image op in
  let s := settings image in
  match rev with
  | Plain =>
      match mode s with
      | Convert => PlainEngine.convertImage rt (img_file image) (format s) false
      | Compress => ([], compressImage rt (img_file image))
      | Both =>
          andThen
            (PlainEngine.convertImage rt (img_file image) (format s) (enableCompression s))
            (fun converted =>
               if enableCompression s then compressBlob rt converted
               else Resolved converted)
      end
  | Resizing =>
      let resizeOptions := Some (resizeOptionsOf op) in
      match mode s with
      | Convert =>
          ResizingEngine.convertImage rt (img_file image) (format s) false resizeOptions
      | Compress =>
          andThen
            (ResizingEngine.convertImage rt (img_file image)
               (file_type (img_file image)) false resizeOptions)
            (fun resized => compressBlob rt resized)
      | Both =>
          andThen
            (ResizingEngine.convertImage rt (img_file image) (format s)
               (enableCompression s) resizeOptions)
            (fun converted =>
               if enableCompression s then compressBlob rt converted
               else Resolved converted)
      end
  end.

(** [1 - resultBlob.size / image.file.size].  For an empty file the
    JavaScript quotient is [Infinity] or [NaN], which [Q] does not have;
    no property below reads the ratio. *)
Definition ratioOf (size original : Z) : Q :=
  (1 - inject_Z size / inject_Z original)%Q.

Definition resultOf (image : ImageConfig) (resultBlob : Blob) (resultUrl : string)
    : Result :=
  {| res_blob := resultBlob;
     res_url := resultUrl;
     res_size := blob_size resultBlob;
     originalSize := file_size (img_file image);
     compressionRatio := ratioOf (blob_size resultBlob) (file_size (img_file image)) |}.

(** The whole [try] block: the result object to store, or what the
    [catch] receives. *)
Definition attempt (rev : Revision) (rt : Runtime) (op : Op) : Outcome Result :=
  match snd (pipeline rev rt op) with
  | Resolved resultBlob =>
      match rev with
      | Plain =>
          Resolved (resultOf (op_image op) resultBlob (createObjectURL rt resultBlob))
      | Resizing =>
          match readAsDataURL rt resultBlob with
          | Some resultUrl => Resolved (resultOf (op_image op) resultBlob resultUrl)
          | None => Rejected (ErrorObject "Blob 读取失败")
          end
      end
  | Rejected e => Rejected e
  | Pending => Pending
  end.

(** The [set] of the success path. *)
Definition storeResult (id : string) (r : Result) (st : State) : State :=
  mapImage id (fun img =>
    {| img_id := img_id img; img_file := img_file img; previewUrl := previewUrl img;
       errorMessage := errorMessage img; settings := settings img;
       status := Done;
       result := Some r |}) st.

Definition catchText (e : Exn) : string :=
  match e with ErrorObject m => m | OtherValue => "处理失败" end.

(** The [set] of the [catch]. *)
Definition storeError (id : string) (e : Exn) (st : State) : State :=
  mapImage id (fun img =>
    {| img_id := img_id img; img_file := img_file img; previewUrl := previewUrl img;
       settings := settings img; result := result img;
       status := Error;
       errorMessage := Some (catchText e) |}) st.

(** [processSingleImage(id)] from call to return when nothing else runs in
    between, against the platform [rt]: [None] when it never returns. *)
Definition processSingleImage (rev : Revision) (rt : Runtime) (id : string)
    (st : State) : option State :=
  match launch id st with
  | (st', None) => Some st'
  | (st', Some op) =>
      match attempt rev rt op with
      | Resolved r => Some (storeResult id r st')
      | Rejected e => Some (storeError id e st')
      | Pending => None
      end
  end.

(* ===================================================================== *)
(** ** The registry over time *)
(* ===================================================================== *)

(** A [processSingleImage] call that is past its first await: the batch
    whose [Promise.all] waits for it, if any, and what it holds. *)
Record Task := mkTask {
  task_batch : option nat;
  task_op : Op;
}.

(** An [addFiles] of the resizing revision that is waiting for its file
    reads: the global settings and the files it captured. *)
Record PendingAdd := mkPendingAdd {
  add_settings : GlobalSettings;
  add_files : list File;
}.

(** The store together with the asynchronous calls in flight.  [awaited]
    lists the [processImages] calls suspended in [await Promise.all]. *)
Record Sys := mkSys {
  store : State;
  tasks : list Task;
  awaited : list nat;
  adds : list PendingAdd;
  nextBatch : nat;
}.

Definition initialSys (rev : Revision) : Sys :=
  {| store := initialState rev; tasks := []; awaited := []; adds := [];
     nextBatch := 0%nat |}.

(** [pendingImages.map((img) => processSingleImage(img.id))]: the calls
    are made one after the other, each running up to its first await. *)
Fixpoint launchAll (ids : list string) (st : State) : State * list Op :=
  match ids with
  | [] => (st, [])
  | id :: rest =>
      let '(st1, o) := launch id st in
      let '(st2, ops) := launchAll rest st1 in
      (st2, match o with Some op => op :: ops | None => ops end)
  end.

(** [images.filter((img) => img.status !== 'done')]. *)
Definition pendingImages (imgs : list ImageConfig) : list ImageConfig :=
  filter (fun img => status img <> Done) imgs.

(** [processImages] up to [await Promise.all(..)]: the store afterwards
    and the calls launched. *)
Definition processImagesHead (st : State) : State * list Op :=
  let imgs := images st in
  let st1 := setProcessing true st in
  launchAll (img_id <$> pendingImages imgs) st1.

Definition batchSettled (b : nat) (ts : list Task) : bool :=
  forallb (fun t => negb (bool_decide (task_batch t = Some b))) ts.

(** What can happen next. *)
Inductive Event :=
| EvAddFiles (tok : nat -> Token) (files : list File)
| EvFilesRead (k : nat) (tok : nat -> Token)
| EvRemoveImage (id : string)
| EvUpdateSettings (id : string) (p : PartialSettings)
| EvUpdateGlobalSettings (p : PartialGlobal)
| EvApplyGlobalSettings
| EvClearAll
| EvProcessSingleImage (id : string)
| EvProcessImages
| EvSettle (k : nat) (rt : Runtime)
| EvResume (b : nat).

Definition withStore (sys : Sys) (st : State) : Sys :=
  {| store := st; tasks := tasks sys; awaited := awaited sys; adds := adds sys;
     nextBatch := nextBatch sys |}.

(** One event: [None] when it cannot happen in [sys].
    - [EvAddFiles]: a call of [addFiles]; the resizing revision suspends
      it until its files are read ([EvFilesRead]).
    - [EvProcessSingleImage], [EvProcessImages]: the call, run up to its
      first await.
    - [EvSettle k rt]: the [k]-th call in flight runs to its end, the
      platform having behaved as [rt] for it.
    - [EvResume b]: [Promise.all] of batch [b] has resolved, which takes
      all its calls to have returned; the flag is cleared. *)
Definition exec (rev : Revision) (ev : Event) (sys : Sys) : option Sys :=
  match ev with
  | EvAddFiles tok files =>
      match rev with
      | Plain => Some (withStore sys (addFiles rev tok files (store sys)))
      | Resizing =>
          Some {| store := store sys; tasks := tasks sys; awaited := awaited sys;
                  adds := adds sys ++
                            [mkPendingAdd (globalSettings (store sys)) (validFiles files)];
                  nextBatch := nextBatch sys |}
      end
  | EvFilesRead k tok =>
      match adds sys !! k with
      | Some a =>
          Some {| store := appendImages rev (add_settings a) tok (add_files a) (store sys);
                  tasks := tasks sys; awaited := awaited sys;
                  adds := delete k (adds sys);
                  nextBatch := nextBatch sys |}
      | None => None
      end
  | EvRemoveImage id => Some (withStore sys (removeImage id (store sys)))
  | EvUpdateSettings id p => Some (withStore sys (updateSettings id p (store sys)))
  | EvUpdateGlobalSettings p => Some (withStore sys (updateGlobalSettings p (store sys)))
  | EvApplyGlobalSettings => Some (withStore sys (applyGlobalSettings rev (store sys)))
  | EvClearAll => Some (withStore sys (clearAll (store sys)))
  | EvProcessSingleImage id =>
      let '(st, o) := launch id (store sys) in
      Some {| store := st;
              tasks := tasks sys ++ match o with
                                    | Some op => [mkTask None op]
                                    | None => []
                                    end;
              awaited := awaited sys; adds := adds sys; nextBatch := nextBatch sys |}
  | EvProcessImages =>
      let '(st, ops) := processImagesHead (store sys) in
      let b := nextBatch sys in
      Some {| store := st;
              tasks := tasks sys ++ (mkTask (Some b) <$> ops);
              awaited := awaited sys ++ [b];
              adds := adds sys;
              nextBatch := S b |}
  | EvSettle k rt =>
      match tasks sys !! k with
      | Some t =>
          let id := op_id (task_op t) in
          match attempt rev rt (task_op t) with
          | Resolved r =>
              Some {| store := storeResult id r (store sys);
                      tasks := delete k (tasks sys);
                      awaited := awaited sys; adds := adds sys;
                      nextBatch := nextBatch sys |}
          | Rejected e =>
              Some {| store := storeError id e (store sys);
                      tasks := delete k (tasks sys);
                      awaited := awaited sys; adds := adds sys;
                      nextBatch := nextBatch sys |}
          | Pending => None
          end
      | None => None
      end
  | EvResume b =>
      if bool_decide (b ∈ awaited sys) && batchSettled b (tasks sys) then
        Some {| store := setProcessing false (store sys);
                tasks := tasks sys;
                awaited := filter (fun c => c <> b) (awaited sys);
                adds := adds sys; nextBatch := nextBatch sys |}
      else None
  end.

(** A sequence of events from [sys]. *)
Fixpoint run (rev : Revision) (evs : list Event) (sys : Sys) : option Sys :=
  match evs with
  | [] => Some sys
  | ev :: rest =>
      match exec rev ev sys with
      | Some sys' => run rev rest sys'
      | None => None
      end
  end.

Definition reachable (rev : Revision) (sys : Sys) : Prop :=
  exists evs, run rev evs (initialSys rev) = Some sys.

(** No [processImages] is called while another one is suspended. *)
Definition unoverlapped (ev : Event) (sys : Sys) : bool :=
  match ev with
  | EvProcessImages => bool_decide (awaited sys = [])
  | _ => true
  end.

Fixpoint runSolo (rev : Revision) (evs : list Event) (sys : Sys) : option Sys :=
  match evs with
  | [] => Some sys
  | ev :: rest =>
      if unoverlapped ev sys then
        match exec rev ev sys with
        | Some sys' => runSolo rev rest sys'
        | None => None
        end
      else None
  end.

(* ===================================================================== *)
(** ** [exportImages] *)
(* ===================================================================== *)

(** What [exportImages] does to the page: nothing, one link clicked
    ([href], [download]), or an archive built and offered under the name
    [purepixel_images_<stamp>.zip].  The archive is the JSZip object after
    the loop: [zip.file(name, data)] adds the entry [name] or replaces it. *)
Inductive Export :=
| NoExport
| Download (href : string) (download : jsstr)
| ArchiveDownload (entries : gmap jsstr Blob) (stamp : Z).

(** [images.filter((img) => img.status === 'done' && img.result)]. *)
Definition doneImages (imgs : list ImageConfig) : list ImageConfig :=
  filter (fun img => status img = Done /\ is_Some (result img)) imgs.

(** The body of [for (const img of doneImages)]. *)
Definition zipEntry (zip : gmap jsstr Blob) (img : ImageConfig) : gmap jsstr Blob :=
  match result img with
  | None => zip
  | Some r => <[exportFileName img := res_blob r]> zip
  end.

Definition exportImages (now : Z) (st : State) : Export :=
  match doneImages (images st) with
  | [] => NoExport
  | [img] =>
      match result img with
      | None => NoExport
      | Some r => Download (res_url r) (exportFileName img)
      end
  | imgs => ArchiveDownload (foldl zipEntry ∅ imgs) now
  end.

(* ===================================================================== *)
(** ** The worker hook ([hooks/useImageWorker.ts]) *)
(* ===================================================================== *)

Module Dispatcher.

Inductive ResponseType := RSuccess | RError | RProgress.

(** [WorkerResponse] as the hook reads it: every field but [type] and
    [id] may be missing. *)
Record Response := mkResponse {
  r_type : ResponseType;
  r_id : string;
  r_result : option (Blob * Z);
  r_progress : option Z;
  r_error : option string;
}.

(** A message the worker posts, as such an object. *)
Definition ofWorker (w : Worker.WorkerResponse) : Response :=
  match w with
  | Worker.Progress id p => mkResponse RProgress id None (Some p) None
  | Worker.Success id blob size => mkResponse RSuccess id (Some (blob, size)) None None
  | Worker.Failure id e => mkResponse RError id None None (Some e)
  end.

(** The closure stored under an id: the promise whose [resolve] and
    [reject] it holds, and whether [onProgress] was passed. *)
Record Callback := mkCallback {
  cb_promise : nat;
  cb_onProgress : bool;
}.

(** What the hook does to the outside: settles a promise, calls a
    progress callback, posts to the worker. *)
Inductive Effect :=
| Resolve (promise : nat) (blob : Blob) (size : Z)
| Reject (promise : nat) (message : string)
| OnProgress (promise : nat) (progress : Z)
| PostMessage (m : Worker.WorkerMessage).

(** [workerRef.current !== null] and [callbacksRef.current]. *)
Record Hook := mkHook {
  workerAlive : bool;
  callbacks : gmap string Callback;
}.

(** The closure body: [response.progress || 0], [response.error ||
    '处理失败']. *)
Definition runCallback (cb : Callback) (r : Response) : list Effect :=
  match r_type r with
  | RProgress =>
      if cb_onProgress cb
      then [OnProgress (cb_promise cb) (default 0 (r_progress r))]
      else []
  | RSuccess =>
      match r_result r with
      | Some (blob, size) => [Resolve (cb_promise cb) blob size]
      | None => []
      end
  | RError =>
      [Reject (cb_promise cb)
         (match r_error r with
          | Some e => if bool_decide (e = "") then "处理失败" else e
          | None => "处理失败"
          end)]
  end.

(** [workerRef.current.onmessage]. *)
Definition onWorkerMessage (r : Response) (h : Hook) : Hook * list Effect :=
  match callbacks h !! r_id r with
  | Some callback =>
      (match r_type r with
       | RSuccess | RError =>
           {| workerAlive := workerAlive h;
              callbacks := delete (r_id r) (callbacks h) |}
       | RProgress => h
       end,
       runCallback callback r)
  | None => (h, [])
  end.

(** The messages of the worker, handled one after the other. *)
Fixpoint deliverAll (rs : list Response) (h : Hook) : Hook * list Effect :=
  match rs with
  | [] => (h, [])
  | r :: rest =>
      let '(h1, e1) := onWorkerMessage r h in
      let '(h2, e2) := deliverAll rest h1 in
      (h2, e1 ++ e2)
  end.

(** [reader.onload] inside [processImage]: the callback is stored under
    the id and the message posted, if the worker is still there. *)
Definition onReaderLoad (promise : nat) (id : string) (f : File) (fmt : string)
    (m : ProcessMode) (enableCompression onProgress : bool) (h : Hook)
    : Hook * list Effect :=
  let message := Worker.mkMessage m id (file_data f) (file_type f) fmt enableCompression in
  ({| workerAlive := workerAlive h;
      callbacks := <[id := mkCallback promise onProgress]> (callbacks h) |},
   if workerAlive h then [PostMessage message] else []).

(** [processImage] with nothing in between; [readable] says whether the
    [FileReader] ends in [onload] or in [onerror]. *)
Definition processImage (promise : nat) (id : string) (f : File) (fmt : string)
    (m : ProcessMode) (enableCompression onProgress readable : bool) (h : Hook)
    : Hook * list Effect :=
  if negb (workerAlive h) then (h, [Reject promise "Worker 未初始化"])
  else if readable then onReaderLoad promise id f fmt m enableCompression onProgress h
  else (h, [Reject promise "文件读取失败"]).

(** The cleanup of the effect: [terminate()] and [workerRef.current =
    null]. *)
Definition unmount (h : Hook) : Hook :=
  {| workerAlive := false; callbacks := callbacks h |}.

(** The promise an effect is about. *)
Definition effectPromise (e : Effect) : option nat :=
  match e with
  | Resolve k _ _ | Reject k _ | OnProgress k _ => Some k
  | PostMessage _ => None
  end.

(** The effects that settle a promise. *)
Definition settles (e : Effect) : bool :=
  match e with
  | Resolve _ _ _ | Reject _ _ => true
  | _ => false
  end.

End Dispatcher.

(* ===================================================================== *)
(** ** The components that call the store *)
(* ===================================================================== *)

(** [components/Dropzone.tsx], [handleFiles]: the toasts shown and the
    list handed to [addFiles], if the call is made. *)
Inductive Toast :=
| ToastError (invalidCount : nat)
| ToastSuccess (added : nat).

Definition handleFiles (fileArray : list File) : list Toast * option (list File) :=
  let imageFiles := filter (fun f => isImage f) fileArray in
  let invalidCount := (length fileArray - length imageFiles)%nat in
  ((if (0 <? invalidCount)%nat then [ToastError invalidCount] else [])
   ++ (if (0 <? length imageFiles)%nat then [ToastSuccess (length imageFiles)] else []),
   if (0 <? length imageFiles)%nat then Some imageFiles else None).

(** [components/ControlPanel.tsx]: [hasImages], [hasDoneImages], the
    [disabled] attributes of the two buttons and the click handler of the
    start button ([applyGlobalSettings(); processImages()]). *)
Definition hasImages (st : State) : bool :=
  (0 <? length (images st))%nat.

Definition hasDoneImages (st : State) : bool :=
  existsb (fun img => bool_decide (status img = Done)) (images st).

Definition startEnabled (st : State) : bool :=
  negb (negb (hasImages st) || isProcessing st).

Definition exportEnabled (st : State) : bool :=
  negb (negb (hasDoneImages st)).

Definition clickStart : list Event := [EvApplyGlobalSettings; EvProcessImages].

(** [app/page.tsx]: the record the comparison slider is shown for. *)
Definition firstDoneImage (st : State) : option ImageConfig :=
  List.find (fun img => bool_decide (status img = Done /\ is_Some (result img)))
            (images st).

(** [components/ImageGrid.tsx]: the arrow of a result points down when
    [compressionRatio > 0]; the process/retry button is rendered for idle
    and error records. *)
Definition isSmaller (r : Result) : bool :=
  negb (Qle_bool (compressionRatio r) 0).

Definition retryShown (img : ImageConfig) : bool :=
  bool_decide (status img = Idle) || bool_decide (status img = Error).

(** [components/ComparisonSlider.tsx], [updateSliderPosition]: the
    position set for a pointer at [clientX] over a container that starts
    at [left] and is [width] wide. *)
Definition updateSliderPosition (clientX left width : Q) : Q :=
  let x := (clientX - left)%Q in
  let percentage := (x / width * 100)%Q in
  Qmax 0 (Qmin 100 percentage).

(* ===================================================================== *)
(** ** Notions used to state further properties *)
(* ===================================================================== *)

(** [{ ...p1, ...p2 }] of two partial settings objects. *)
Definition overlayPartial (p1 p2 : PartialSettings) : PartialSettings :=
  {| p_format := match p_format p2 with Some v => Some v | None => p_format p1 end;
     p_enableCompression :=
       match p_enableCompression p2 with Some v => Some v | None => p_enableCompression p1 end;
     p_mode := match p_mode p2 with Some v => Some v | None => p_mode p1 end;
     p_width := match p_width p2 with Some v => Some v | None => p_width p1 end;
     p_height := match p_height p2 with Some v => Some v | None => p_height p1 end;
     p_maintainAspectRatio :=
       match p_maintainAspectRatio p2 with
       | Some v => Some v
       | None => p_maintainAspectRatio p1
       end;
     p_scale := match p_scale p2 with Some v => Some v | None => p_scale p1 end |}.

(** A platform whose compression library is replaced. *)
Definition withCompression (rt : Runtime) (c : File -> Exn + Blob) : Runtime :=
  {| loadImage := loadImage rt;
     getContext2d := getContext2d rt;
     drawImage := drawImage rt;
     toBlob := toBlob rt;
     imageCompression := c;
     createObjectURL := createObjectURL rt;
     readAsDataURL := readAsDataURL rt |}.

(** What never changes in a record: id, file and preview URL. *)
Definition identity (img : ImageConfig) : string * File * string :=
  (img_id img, img_file img, previewUrl img).

(** The events of a call of [processSingleImage] or [processImages]. *)
Definition isProcessingEvent (ev : Event) : bool :=
  match ev with
  | EvProcessSingleImage _ | EvProcessImages | EvSettle _ _ | EvResume _ => true
  | _ => false
  end.

(** The start button is clicked only while it is enabled. *)
Definition buttonGuard (ev : Event) (sys : Sys) : bool :=
  match ev with
  | EvProcessImages => startEnabled (store sys)
  | _ => true
  end.

Fixpoint runGuarded (rev : Revision) (evs : list Event) (sys : Sys) : option Sys :=
  match evs with
  | [] => Some sys
  | ev :: rest =>
      if buttonGuard ev sys then
        match exec rev ev sys with
        | Some sys' => runGuarded rev rest sys'
        | None => None
        end
      else None
  end.

(* ===================================================================== *)
(** ** The properties the specification states, as predicates *)
(* ===================================================================== *)

(** "Exactly one of" two statements. *)
Definition exactlyOne (A B : Prop) : Prop := (A /\ ~ B) \/ (~ A /\ B).

(** The record invariant as the data model words it. *)
Definition statedInvariant (img : ImageConfig) : Prop :=
  exactlyOne (is_Some (result img)) (status img <> Done)
  /\ exactlyOne (is_Some (errorMessage img)) (status img <> Error).

(** The part of it the registry keeps. *)
Definition keptInvariant (img : ImageConfig) : Prop :=
  (status img = Done -> is_Some (result img))
  /\ (status img = Error -> is_Some (errorMessage img)).


(** While batch runs do not overlap: the flag says whether a batch is
    suspended, at most one is, and every call launched by a batch that has
    not returned belongs to a suspended batch. *)
Definition soloInvariant (sys : Sys) : Prop :=
  isProcessing (store sys) = bool_decide (awaited sys <> [])
  /\ (length (awaited sys) <= 1)%nat
  /\ (forall t b, t ∈ tasks sys -> task_batch t = Some b -> b ∈ awaited sys).

(** The number of entries of the archive an export built. *)
Definition entryCount (e : Export) : nat :=
  match e with
  | ArchiveDownload entries _ => size entries
  | _ => 0%nat
  end.

(** The name under which an export offers a single file. *)
Definition downloadName (e : Export) : option jsstr :=
  match e with
  | Download _ name => Some name
  | _ => None
  end.

(** The MIME types of the stored result blobs. *)
Definition resultTypes (st : State) : list (option string) :=
  (fun img => (fun r => blob_type (res_blob r)) <$> result img) <$> images st.

(** The requests of a run that encode the image itself (not a probe). *)
Definition imageRequests (r : Run) : list EncodeReq :=
  filter (fun q => is_Some (req_source q)) (fst r).

(* ===================================================================== *)
(** ** Sample data *)
(* ===================================================================== *)

Module Sample.

Definition photo : File :=
  mkFile (units "holiday photo.png") "image/png" 1000 1.

Definition notes : File :=
  mkFile (units "notes.txt") "text/plain" 20 2.

Definition token (k : nat) : Token :=
  mkToken (if bool_decide (k = 0%nat) then "img_a" else "img_b") "blob:preview".

Definition encoded (q : EncodeReq) : Blob :=
  mkBlob (req_format q) 400 (default 0%N (req_source q)).

(** A browser where everything works; every image decodes to 2000x1000. *)
Definition browser : Runtime :=
  {| loadImage := fun _ => Loaded 2000 1000;
     getContext2d := fun _ _ => true;
     drawImage := fun _ _ _ => None;
     toBlob := fun q => Some (encoded q);
     imageCompression := fun f => inr (mkBlob (file_type f) 300 (file_data f));
     createObjectURL := fun _ => "blob:result";
     readAsDataURL := fun _ => Some "data:result" |}.

(** The same browser, except that no image decodes. *)
Definition brokenDecoder : Runtime :=
  {| loadImage := fun _ => LoadFailed;
     getContext2d := getContext2d browser;
     drawImage := drawImage browser;
     toBlob := toBlob browser;
     imageCompression := imageCompression browser;
     createObjectURL := createObjectURL browser;
     readAsDataURL := readAsDataURL browser |}.

(** The same browser, except that decoding takes for ever. *)
Definition slowDecoder : Runtime :=
  {| loadImage := fun _ => LoadStalled;
     getContext2d := getContext2d browser;
     drawImage := drawImage browser;
     toBlob := toBlob browser;
     imageCompression := imageCompression browser;
     createObjectURL := createObjectURL browser;
     readAsDataURL := readAsDataURL browser |}.

(** The same browser, except that [toBlob] calls back with null. *)
Definition nullEncoder : Runtime :=
  {| loadImage := loadImage browser;
     getContext2d := getContext2d browser;
     drawImage := drawImage browser;
     toBlob := fun _ => None;
     imageCompression := imageCompression browser;
     createObjectURL := createObjectURL browser;
     readAsDataURL := readAsDataURL browser |}.

(** The same browser, except that it cannot encode AVIF. *)
Definition noAvif : Runtime :=
  {| loadImage := loadImage browser;
     getContext2d := getContext2d browser;
     drawImage := drawImage browser;
     toBlob := fun q =>
       if bool_decide (req_format q = "image/avif") then None else Some (encoded q);
     imageCompression := imageCompression browser;
     createObjectURL := createObjectURL browser;
     readAsDataURL := readAsDataURL browser |}.

(** The same browser, except that it cannot encode WEBP. *)
Definition noWebp : Runtime :=
  {| loadImage := loadImage browser;
     getContext2d := getContext2d browser;
     drawImage := drawImage browser;
     toBlob := fun q =>
       if bool_decide (req_format q = "image/webp") then None else Some (encoded q);
     imageCompression := imageCompression browser;
     createObjectURL := createObjectURL browser;
     readAsDataURL := readAsDataURL browser |}.

(** A worker scope where bitmaps are 2000x1000 and AVIF cannot be
    encoded. *)
Definition workerNoAvif : WorkerRuntime :=
  {| createImageBitmap := fun _ _ => inr (2000, 1000);
     offscreenContext2d := fun _ _ => true;
     convertToBlob := fun q =>
       if bool_decide (req_format q = "image/avif")
       then inl (ErrorObject "EncodingError")
       else inr (encoded q) |}.

(** A worker scope whose encoder hands back an empty blob. *)
Definition workerEmpty : WorkerRuntime :=
  {| createImageBitmap := fun _ _ => inr (2000, 1000);
     offscreenContext2d := fun _ _ => true;
     convertToBlob := fun q => inr (mkBlob (req_format q) 0 0) |}.

Definition noChange : PartialSettings :=
  mkPartial None None None None None None None.

Definition settingsWith (m : ProcessMode) (fmt : string) (flag : bool) : Settings :=
  mkSettings fmt flag m None None true (Some 1%Q).

Definition record (id : string) (f : File) (st : ProcessStatus) (s : Settings)
    (r : option Result) : ImageConfig :=
  mkImage id f "blob:preview" st None s r.

Definition opOf (img : ImageConfig) (rm : option ResizeMode) : Op :=
  mkOp (img_id img) img rm.

(** A call of [processSingleImage] on the photo: mode convert, JPEG,
    compression flag set. *)
Definition convertJpeg (rm : option ResizeMode) : Op :=
  opOf (record "img_a" photo Idle (settingsWith Convert "image/jpeg" true) None) rm.

(** Mode compress, the format setting at its default. *)
Definition compressPhoto (rm : option ResizeMode) : Op :=
  opOf (record "img_a" photo Idle (settingsWith Compress "image/webp" true) None) rm.




Definition avifMessage : Worker.WorkerMessage :=
  Worker.mkMessage Convert "img_a" 1 "image/png" "image/avif" true.

Definition webpMessage : Worker.WorkerMessage :=
  Worker.mkMessage Convert "img_a" 1 "image/png" "image/webp" true.

(** The events that bring one photo into the registry. *)
Definition addPhoto (rev : Revision) : list Event :=
  match rev with
  | Plain => [EvAddFiles token [photo]]
  | Resizing => [EvAddFiles token [photo]; EvFilesRead 0 token]
  end.

(** A failed run, then a settings edit. *)
Definition failThenEdit (rev : Revision) : list Event :=
  addPhoto rev ++ [EvProcessSingleImage "img_a"; EvSettle 0 brokenDecoder;
                   EvUpdateSettings "img_a" noChange].

(** A failed run, then a retry that succeeds. *)
Definition failThenRetry (rev : Revision) : list Event :=
  addPhoto rev ++ [EvProcessSingleImage "img_a"; EvSettle 0 brokenDecoder;
                   EvProcessSingleImage "img_a"; EvSettle 0 browser].

(** A run that succeeds, then a second run of the same record that fails. *)
Definition succeedThenFail (rev : Revision) : list Event :=
  addPhoto rev ++ [EvProcessSingleImage "img_a"; EvSettle 0 browser;
                   EvProcessSingleImage "img_a"; EvSettle 0 brokenDecoder].


(** One batch run over two photos, one of which fails. *)
Definition oneBatch : list Event :=
  [EvAddFiles token [photo; photo]; EvProcessImages; EvSettle 1 brokenDecoder].

Definition setFormat (fmt : string) : PartialSettings :=
  mkPartial (Some fmt) None None None None None None.

Definition setMode (m : ProcessMode) : PartialSettings :=
  mkPartial None None (Some m) None None None None.

(** A photo converted to AVIF by a browser that cannot encode AVIF
    (resizing revision). *)
Definition avifWithoutAvif : list Event :=
  addPhoto Resizing ++ [EvUpdateSettings "img_a" (setFormat "image/avif");
                        EvProcessSingleImage "img_a"; EvSettle 0 noAvif].

(** A PNG photo processed in mode compress, the format setting left at
    its default (plain revision). *)
Definition compressOnly : list Event :=
  addPhoto Plain ++ [EvUpdateSettings "img_a" (setMode Compress);
                     EvProcessSingleImage "img_a"; EvSettle 0 browser].

(** A photo processed with the default settings (mode convert, WEBP) by
    a browser that cannot encode WEBP. *)
Definition webpWithoutWebp (rev : Revision) : list Event :=
  addPhoto rev ++ [EvProcessSingleImage "img_a"; EvSettle 0 noWebp].

(** Two files of the same name, both processed. *)
Definition twoOfOneName : list Event :=
  [EvAddFiles token [photo; photo]; EvProcessImages;
   EvSettle 0 browser; EvSettle 0 browser; EvResume 0].

(** The system after the events, from the initial one. *)
Definition after (rev : Revision) (evs : list Event) : Sys :=
  default (initialSys rev) (run rev evs (initialSys rev)).



(** The worker hook after mount, and with one call waiting for the
    worker's answer. *)
Definition hook : Dispatcher.Hook :=
  {| Dispatcher.workerAlive := true; Dispatcher.callbacks := ∅ |}.

Definition waiting : Dispatcher.Hook :=
  {| Dispatcher.workerAlive := true;
     Dispatcher.callbacks := {["img_a" := Dispatcher.mkCallback 0 true]} |}.

End Sample.

(* ===================================================================== *)
(** ** Sanity checks of the embedding *)
(* ===================================================================== *)

Example stripExtension_png : stripExtension (units "a.tar.gz") = units "a.tar".
Proof. reflexivity. Qed.

Example stripExtension_slash : stripExtension (units "a.b/c") = units "a.b/c".
Proof. reflexivity. Qed.

Example sanitize_space : sanitizeFileName (units "my photo(1)") = units "my_photo_1_".
Proof. reflexivity. Qed.

Example sanitize_cjk : sanitizeFileName [0x56fe; 0x7247; 0x3042]%N = [0x56fe; 0x7247; 95]%N.
Proof. reflexivity. Qed.

Example round_half_up : ResizingEngine.round (5 # 2) = 3 /\ ResizingEngine.round (-5 # 2) = -2.
Proof. split; reflexivity. Qed.

Example plan_over_ceiling : ResizingEngine.planDimensions 5000 3000 None = (4096, 2458).
Proof. reflexivity. Qed.

(** A decode that never answers: the plain [convertImage] never settles,
    the resizing one is rejected by its timeout. *)
Example stalled_decode :
  snd (PlainEngine.convertImage Sample.slowDecoder Sample.photo "image/png" false)
    = Pending
  /\ snd (ResizingEngine.convertImage Sample.slowDecoder Sample.photo "image/png"
            false None)
     = Rejected (ErrorObject "图片加载超时，请重试").
Proof. split; reflexivity. Qed.

(** An encoder that always gives null: the resizing [convertImage] fails
    after its two calls. *)
Example both_encodes_fail :
  ResizingEngine.convertImage Sample.nullEncoder Sample.photo "image/jpeg" true None
  = ([mkReq 2000 1000 (Some 1%N) "image/jpeg" 0.92%Q;
      mkReq 2000 1000 (Some 1%N) "image/png" 1.0%Q],
     Rejected (ErrorObject "图片转换失败，请尝试其他格式")).
Proof. reflexivity. Qed.

(* ===================================================================== *)
(** ** Records are rewritten one by one *)
(* ===================================================================== *)

Section MapImage.
Context (id : string) (f : ImageConfig -> ImageConfig).

Lemma mapImage_lookup st i img :
  images st !! i = Some img ->
  images (mapImage id f st) !! i
  = Some (if bool_decide (img_id img = id) then f img else img).
Proof.
  intros H. unfold mapImage, mapImages; simpl.
  rewrite list_lookup_fmap, H. reflexivity.
Qed.

Lemma mapImage_flag st : isProcessing (mapImage id f st) = isProcessing st.
Proof. reflexivity. Qed.

Lemma mapImage_global st : globalSettings (mapImage id f st) = globalSettings st.
Proof. reflexivity. Qed.

Lemma mapImage_absent st :
  (forall img, img ∈ images st -> img_id img <> id) ->
  mapImage id f st = st.
Proof.
  intros H. destruct st as [imgs g b]. unfold mapImage, mapImages; simpl in *.
  f_equal. induction imgs as [|x xs IH]; [done|].
  rewrite fmap_cons. rewrite bool_decide_eq_false_2.
  - f_equal. apply IH. intros img Hin. apply H. by right.
  - apply H. by left.
Qed.

Lemma mapImage_Forall (P : ImageConfig -> Prop) st :
  (forall img, P img -> img_id img = id -> P (f img)) ->
  Forall P (images st) -> Forall P (images (mapImage id f st)).
Proof.
  intros Hf H. unfold mapImage, mapImages; simpl.
  apply Forall_fmap. eapply Forall_impl; [exact H|].
  intros img HP. simpl. case_bool_decide; auto.
Qed.
End MapImage.

Lemma findImage_None id imgs :
  findImage id imgs = None <-> forall img, img ∈ imgs -> img_id img <> id.
Proof.
  unfold findImage. induction imgs as [|x xs IH]; simpl.
  - split; [intros _ img Hin; inversion Hin | done].
  - case_bool_decide as Hx.
    + split; [done|]. intros H. exfalso. apply (H x); [by left | done].
    + rewrite IH. split.
      * intros H img Hin. apply elem_of_cons in Hin as [->|Hin]; auto.
      * intros H img Hin. apply H. by right.
Qed.

Lemma findImage_Some id imgs img :
  findImage id imgs = Some img -> img ∈ imgs /\ img_id img = id.
Proof.
  unfold findImage. induction imgs as [|x xs IH]; simpl; [done|].
  case_bool_decide as Hx.
  - intros [= <-]. split; [by left | done].
  - intros H. destruct (IH H) as [Hin Hid]. split; [by right | done].
Qed.

Lemma findImage_is_Some id imgs :
  id ∈ (img_id <$> imgs) -> is_Some (findImage id imgs).
Proof.
  intros Hin. destruct (findImage id imgs) eqn:E; [eauto|].
  apply list_elem_of_fmap in Hin as (img & -> & Himg).
  exfalso. eapply findImage_None; [exact E | exact Himg | reflexivity].
Qed.

(* ===================================================================== *)
(** ** The head of [processSingleImage] and of [processImages] *)
(* ===================================================================== *)

Lemma launch_store id st : fst (launch id st) = mapImage id markProcessing st.
Proof.
  unfold launch. destruct (findImage id (images st)) eqn:E; simpl; [done|].
  symmetry. apply mapImage_absent. by apply findImage_None.
Qed.

Lemma launch_absent id st :
  (forall img, img ∈ images st -> img_id img <> id) -> launch id st = (st, None).
Proof.
  intros H. unfold launch.
  by rewrite (proj2 (findImage_None id (images st)) H).
Qed.

Lemma launch_found id st op :
  snd (launch id st) = Some op ->
  op_id op = id /\ findImage id (images st) = Some (op_image op).
Proof.
  unfold launch. destruct (findImage id (images st)) eqn:E; simpl; [|done].
  intros [= <-]. done.
Qed.

Lemma launch_present id st :
  id ∈ (img_id <$> images st) -> exists op, snd (launch id st) = Some op /\ op_id op = id.
Proof.
  intros Hin. destruct (findImage_is_Some _ _ Hin) as [img E].
  unfold launch. rewrite E. simpl. eauto.
Qed.

Lemma mapImage_ids id f st :
  (forall img, img_id (f img) = img_id img) ->
  img_id <$> images (mapImage id f st) = img_id <$> images st.
Proof.
  intros Hf. unfold mapImage, mapImages; simpl.
  rewrite <- list_fmap_compose. apply list_fmap_ext.
  intros i img _. simpl. case_bool_decide; auto.
Qed.

Lemma launch_ids id st :
  img_id <$> images (fst (launch id st)) = img_id <$> images st.
Proof. rewrite launch_store. by apply mapImage_ids. Qed.

Lemma launchAll_store_Forall (P : ImageConfig -> Prop) ids st :
  (forall img, P img -> P (markProcessing img)) ->
  Forall P (images st) -> Forall P (images (fst (launchAll ids st))).
Proof.
  intros HP. revert st. induction ids as [|id rest IH]; intros st H; simpl; [done|].
  destruct (launch id st) as [st1 o] eqn:E1.
  destruct (launchAll rest st1) as [st2 ops] eqn:E2. simpl.
  specialize (IH st1). rewrite E2 in IH. simpl in IH. apply IH.
  replace st1 with (fst (launch id st)) by (by rewrite E1).
  rewrite launch_store. apply mapImage_Forall; auto.
Qed.

Lemma launchAll_flag ids st :
  isProcessing (fst (launchAll ids st)) = isProcessing st.
Proof.
  revert st. induction ids as [|id rest IH]; intros st; simpl; [done|].
  destruct (launch id st) as [st1 o] eqn:E1.
  destruct (launchAll rest st1) as [st2 ops] eqn:E2. simpl.
  specialize (IH st1). rewrite E2 in IH. simpl in IH. rewrite IH.
  replace st1 with (fst (launch id st)) by (by rewrite E1).
  by rewrite launch_store.
Qed.

(** Every call of the batch finds its record: the ids launched are the ids
    asked for, in order. *)
Lemma launchAll_ids ids st :
  (forall id, id ∈ ids -> id ∈ (img_id <$> images st)) ->
  op_id <$> snd (launchAll ids st) = ids.
Proof.
  revert st. induction ids as [|id rest IH]; intros st H; simpl; [done|].
  destruct (launch id st) as [st1 o] eqn:E1.
  destruct (launchAll rest st1) as [st2 ops] eqn:E2. simpl.
  destruct (launch_present id st) as (op & Hop & Hid).
  { apply H. by left. }
  rewrite E1 in Hop. simpl in Hop. subst o. rewrite fmap_cons, Hid. f_equal.
  specialize (IH st1). rewrite E2 in IH. simpl in IH. apply IH.
  intros id' Hin. replace st1 with (fst (launch id st)) by (by rewrite E1).
  rewrite launch_ids. apply H. by right.
Qed.

(** After the batch is launched, a record whose id was asked for is
    [Processing]; so is one that was [Processing] before. *)
Lemma launchAll_lookup ids st i img :
  images st !! i = Some img ->
  exists img', images (fst (launchAll ids st)) !! i = Some img'
    /\ img_id img' = img_id img
    /\ (img_id img ∈ ids \/ status img = Processing -> status img' = Processing).
Proof.
  revert st img. induction ids as [|id rest IH]; intros st img H; simpl.
  - exists img. split; [done|]. split; [done|]. intros [Hin|Hs]; [inversion Hin | done].
  - destruct (launch id st) as [st1 o] eqn:E1.
    destruct (launchAll rest st1) as [st2 ops] eqn:E2. simpl.
    assert (Hst1 : st1 = mapImage id markProcessing st).
    { rewrite <- launch_store. by rewrite E1. }
    pose proof (mapImage_lookup id markProcessing st i img H) as Hl.
    rewrite <- Hst1 in Hl.
    destruct (IH st1 _ Hl) as (img' & Hl' & Hid' & Hst').
    rewrite E2 in Hl'. simpl in Hl'.
    exists img'. split; [done|].
    assert (Hsame : img_id (if bool_decide (img_id img = id)
                            then markProcessing img else img) = img_id img).
    { case_bool_decide; done. }
    split; [congruence|].
    intros Hc. apply Hst'. rewrite Hsame.
    destruct Hc as [Hin|Hs].
    + apply elem_of_cons in Hin as [Heq|Hin]; [|by left].
      right. rewrite bool_decide_eq_true_2 by done. done.
    + right. case_bool_decide; done.
Qed.

Lemma processImagesHead_flag st : isProcessing (fst (processImagesHead st)) = true.
Proof. unfold processImagesHead. by rewrite launchAll_flag. Qed.

Lemma processImagesHead_ids st :
  op_id <$> snd (processImagesHead st) = img_id <$> pendingImages (images st).
Proof.
  unfold processImagesHead. apply launchAll_ids.
  intros id Hin. simpl.
  apply list_elem_of_fmap in Hin as (img & -> & Himg).
  apply list_elem_of_fmap. exists img. split; [done|].
  unfold pendingImages in Himg. by apply list_elem_of_filter in Himg as [_ ?].
Qed.


(* ===================================================================== *)
(** ** What every event keeps true of the records *)
(* ===================================================================== *)

Lemma kept_idle img : status img = Idle -> keptInvariant img.
Proof. intros H. split; rewrite H; done. Qed.

Lemma kept_markProcessing img : keptInvariant (markProcessing img).
Proof. split; done. Qed.

Lemma kept_appendImages rev g tok valid st :
  Forall keptInvariant (images st) ->
  Forall keptInvariant (images (appendImages rev g tok valid st)).
Proof.
  intros H. simpl. apply Forall_app. split; [done|].
  apply Forall_forall. intros img Hin.
  apply list_elem_of_lookup in Hin as [i Hi].
  rewrite list_lookup_imap in Hi.
  destruct (valid !! i); simpl in Hi; [|done].
  injection Hi as <-. by apply kept_idle.
Qed.

Lemma kept_exec rev ev sys sys' :
  exec rev ev sys = Some sys' ->
  Forall keptInvariant (images (store sys)) ->
  Forall keptInvariant (images (store sys')).
Proof.
  intros Hex H. destruct ev; simpl in Hex.
  - destruct rev; injection Hex as <-; simpl; [|done].
    by apply kept_appendImages.
  - destruct (adds sys !! k); [|done]. injection Hex as <-. simpl.
    by apply (kept_appendImages rev (add_settings p) tok (add_files p) (store sys)).
  - injection Hex as <-. simpl.
    apply Forall_forall. intros img Hin.
    apply list_elem_of_filter in Hin as [_ Hin].
    by eapply Forall_forall in H.
  - injection Hex as <-. simpl. apply (mapImage_Forall id); [|done].
    intros img _ _. by apply kept_idle.
  - injection Hex as <-. done.
  - injection Hex as <-. simpl. apply Forall_fmap, Forall_forall.
    intros img _. by apply kept_idle.
  - injection Hex as <-. simpl. constructor.
  - destruct (launch id (store sys)) as [st o] eqn:E. injection Hex as <-. simpl.
    replace st with (fst (launch id (store sys))) by (by rewrite E).
    rewrite launch_store. apply mapImage_Forall; [|done].
    intros img _ _. apply kept_markProcessing.
  - destruct (processImagesHead (store sys)) as [st ops] eqn:E.
    injection Hex as <-. simpl.
    replace st with (fst (processImagesHead (store sys))) by (by rewrite E).
    unfold processImagesHead. apply launchAll_store_Forall; [|done].
    intros img _. apply kept_markProcessing.
  - destruct (tasks sys !! k); [|done].
    destruct (attempt rev rt (task_op t)); [| |done]; injection Hex as <-; simpl.
    + apply (mapImage_Forall (op_id (task_op t))); [|done].
      intros img _ _. split; simpl; [eauto | done].
    + apply (mapImage_Forall (op_id (task_op t))); [|done].
      intros img _ _. split; simpl; [done | eauto].
  - destruct (bool_decide (b ∈ awaited sys) && batchSettled b (tasks sys)); [|done].
    injection Hex as <-. done.
Qed.

Lemma kept_run rev evs sys sys' :
  run rev evs sys = Some sys' ->
  Forall keptInvariant (images (store sys)) ->
  Forall keptInvariant (images (store sys')).
Proof.
  revert sys. induction evs as [|ev rest IH]; intros sys Hrun H; simpl in Hrun.
  - by injection Hrun as <-.
  - destruct (exec rev ev sys) as [sys1|] eqn:E; [|done].
    eapply IH; [exact Hrun|]. by eapply kept_exec.
Qed.

Lemma initial_reachable rev : reachable rev (initialSys rev).
Proof. by exists []. Qed.

Lemma reachable_step rev ev sys sys' :
  reachable rev sys -> exec rev ev sys = Some sys' -> reachable rev sys'.
Proof.
  intros [evs Hrun] Hex. exists (evs ++ [ev]).
  revert Hrun. generalize (initialSys rev).
  induction evs as [|e rest IH]; intros s Hrun; simpl in *.
  - injection Hrun as ->. by rewrite Hex.
  - destruct (exec rev e s); [|done]. by apply IH.
Qed.

(** The steps of [processSingleImage] on the record at position [i]. *)
Lemma storeError_lookup id e st i img :
  images st !! i = Some img -> img_id img = id ->
  exists img', images (storeError id e st) !! i = Some img'
    /\ status img' = Error /\ errorMessage img' = Some (catchText e)
    /\ result img' = result img /\ settings img' = settings img.
Proof.
  intros H Hid. unfold storeError.
  rewrite (mapImage_lookup _ _ _ _ _ H), bool_decide_eq_true_2 by done.
  eexists. split; [reflexivity|]. done.
Qed.

Lemma updateSettings_lookup id p st i img :
  images st !! i = Some img -> img_id img = id ->
  exists img', images (updateSettings id p st) !! i = Some img'
    /\ status img' = Idle /\ result img' = None
    /\ errorMessage img' = errorMessage img
    /\ settings img' = mergeSettings (settings img) p.
Proof.
  intros H Hid. unfold updateSettings.
  rewrite (mapImage_lookup _ _ _ _ _ H), bool_decide_eq_true_2 by done.
  eexists. split; [reflexivity|]. done.
Qed.

(** C1, as amended.  In every state the registry can reach, a record whose
    status is done has a result and a record whose status is error has an
    error message.  When [processSingleImage(id)] fails, the record goes
    to status error with the message stored and its result field left as
    it was.  When [updateSettings(id, partial)] resets a record to idle it
    drops the stored result, merges the settings and leaves the error
    message field as it was. *)
Theorem registry_keeps_done_result_error_message rev sys :
  reachable rev sys ->
  Forall keptInvariant (images (store sys))
  /\ (forall rt id e i img st' op,
        images (store sys) !! i = Some img -> img_id img = id ->
        launch id (store sys) = (st', Some op) ->
        attempt rev rt op = Rejected e ->
        exists st'' img',
          processSingleImage rev rt id (store sys) = Some st''
          /\ images st'' !! i = Some img'
          /\ status img' = Error
          /\ errorMessage img' = Some (catchText e)
          /\ result img' = result img)
  /\ (forall id p i img,
        images (store sys) !! i = Some img -> img_id img = id ->
        exists img',
          images (updateSettings id p (store sys)) !! i = Some img'
          /\ status img' = Idle
          /\ result img' = None
          /\ errorMessage img' = errorMessage img
          /\ settings img' = mergeSettings (settings img) p).
Proof.
  intros [evs Hrun]. split; [|split].
  - eapply kept_run; [exact Hrun|]. constructor.
  - intros rt id e i img st' op Hi Hid Hl Ha.
    unfold processSingleImage. rewrite Hl, Ha.
    assert (Hst' : st' = mapImage id markProcessing (store sys)).
    { rewrite <- launch_store. by rewrite Hl. }
    pose proof (mapImage_lookup id markProcessing _ _ _ Hi) as Hm.
    rewrite bool_decide_eq_true_2 in Hm by done. rewrite <- Hst' in Hm.
    destruct (storeError_lookup id e st' i _ Hm) as (img' & H1 & H2 & H3 & H4 & _);
      [done|].
    exists (storeError id e st'), img'. done.
  - intros id p i img Hi Hid. by apply updateSettings_lookup.
Qed.

Lemma after_reachable rev evs :
  is_Some (run rev evs (initialSys rev)) -> reachable rev (Sample.after rev evs).
Proof.
  intros [sys H]. exists evs. unfold Sample.after. by rewrite H.
Qed.

Ltac run_events := apply after_reachable; vm_compute; eauto.

(** Witness for C1: the registry after a failed run and a settings edit. *)
Lemma registry_keeps_witness :
  reachable Plain (Sample.after Plain (Sample.failThenEdit Plain))
  /\ Forall keptInvariant
       (images (store (Sample.after Plain (Sample.failThenEdit Plain)))).
Proof.
  assert (H : reachable Plain (Sample.after Plain (Sample.failThenEdit Plain)))
    by run_events.
  split; [exact H|].
  exact (proj1 (registry_keeps_done_result_error_message Plain _ H)).
Defined.

Ltac not_exactly_one H :=
  apply Forall_cons_1 in H as [[H1 H2] _];
  first
    [ destruct H2 as [[_ Hn] | [Hn _]];
      [apply Hn; simpl; discriminate | apply Hn; simpl; eauto]
    | destruct H1 as [[_ Hn] | [Hn _]];
      [apply Hn; simpl; discriminate | apply Hn; simpl; eauto] ].

(** C1 as stated fails, in [src/store/useImageStore.ts].  After a failed
    run and a settings edit the one record is idle and still carries its
    error message, so the stated invariant does not hold of it.  After a
    successful run and a second run that fails, the record is in error and
    still carries the result of the first run. *)
Lemma stated_record_invariant_fails :
  reachable Plain (Sample.after Plain (Sample.failThenEdit Plain))
  /\ status <$> images (store (Sample.after Plain (Sample.failThenEdit Plain)))
     = [Idle]
  /\ errorMessage <$> images (store (Sample.after Plain (Sample.failThenEdit Plain)))
     = [Some "图片加载失败"]
  /\ ~ Forall statedInvariant
        (images (store (Sample.after Plain (Sample.failThenEdit Plain))))
  /\ reachable Plain (Sample.after Plain (Sample.succeedThenFail Plain))
  /\ status <$> images (store (Sample.after Plain (Sample.succeedThenFail Plain)))
     = [Error]
  /\ (fun img => res_size <$> result img)
       <$> images (store (Sample.after Plain (Sample.succeedThenFail Plain)))
     = [Some 400]
  /\ ~ Forall statedInvariant
        (images (store (Sample.after Plain (Sample.succeedThenFail Plain)))).
Proof.
  repeat split; try run_events; try (vm_compute; reflexivity).
  - intros H. vm_compute in H. not_exactly_one H.
  - intros H. vm_compute in H. not_exactly_one H.
Qed.

(** The same two histories in the resizing revision, and the retry that
    succeeds after a failure: the record is done and keeps the message. *)
Lemma stale_fields_resizing :
  status <$> images (store (Sample.after Resizing (Sample.failThenEdit Resizing)))
    = [Idle]
  /\ ~ Forall statedInvariant
        (images (store (Sample.after Resizing (Sample.failThenEdit Resizing))))
  /\ status <$> images (store (Sample.after Resizing (Sample.succeedThenFail Resizing)))
     = [Error]
  /\ ~ Forall statedInvariant
        (images (store (Sample.after Resizing (Sample.succeedThenFail Resizing))))
  /\ status <$> images (store (Sample.after Resizing (Sample.failThenRetry Resizing)))
     = [Done]
  /\ ~ Forall statedInvariant
        (images (store (Sample.after Resizing (Sample.failThenRetry Resizing)))).
Proof.
  repeat split; try (vm_compute; reflexivity);
    intros H; vm_compute in H; not_exactly_one H.
Qed.

(* ===================================================================== *)
(** ** [processSingleImage] on an id the registry does not hold *)
(* ===================================================================== *)

(** C10.  For an id that no record of the collection carries,
    [processSingleImage(id)] returns (it does not hang or throw) and the
    state is what it was: the collection with every record, the global
    settings and the flag; no call is left in flight. *)
Theorem processSingleImage_unknown_id rev rt id sys :
  (forall img, img ∈ images (store sys) -> img_id img <> id) ->
  processSingleImage rev rt id (store sys) = Some (store sys)
  /\ exec rev (EvProcessSingleImage id) sys = Some sys.
Proof.
  intros H. unfold processSingleImage. simpl.
  rewrite (launch_absent _ _ H). split; [done|].
  destruct sys; simpl. by rewrite app_nil_r.
Qed.

(** Witness for C10: the id of no record, in a registry of one record. *)
Lemma processSingleImage_unknown_id_witness :
  (forall img,
      img ∈ images (store (Sample.after Plain (Sample.addPhoto Plain))) ->
      img_id img <> "img_zz")
  /\ processSingleImage Plain Sample.browser "img_zz"
       (store (Sample.after Plain (Sample.addPhoto Plain)))
     = Some (store (Sample.after Plain (Sample.addPhoto Plain))).
Proof.
  assert (H : forall img,
             img ∈ images (store (Sample.after Plain (Sample.addPhoto Plain))) ->
             img_id img <> "img_zz").
  { intros img Hin. vm_compute in Hin.
    apply list_elem_of_singleton in Hin. subst img. simpl. discriminate. }
  split; [exact H|].
  exact (proj1 (processSingleImage_unknown_id Plain Sample.browser "img_zz" _ H)).
Defined.

(* ===================================================================== *)
(** ** [applyGlobalSettings] *)
(* ===================================================================== *)

Lemma overwriteSettings_twice rev g s :
  overwriteSettings rev g (overwriteSettings rev g s) = overwriteSettings rev g s.
Proof. by destruct rev. Qed.

(** C9.  [applyGlobalSettings] is idempotent: applied twice with nothing
    in between, it leaves the state that one application leaves, and so
    the same settings, status and result in every record. *)
Theorem applyGlobalSettings_idempotent rev st :
  applyGlobalSettings rev (applyGlobalSettings rev st) = applyGlobalSettings rev st.
Proof.
  unfold applyGlobalSettings, mapImages; simpl. f_equal.
  rewrite <- list_fmap_compose. apply list_fmap_ext.
  intros i img _. simpl. by rewrite overwriteSettings_twice.
Qed.

(* ===================================================================== *)
(** ** [addFiles] *)
(* ===================================================================== *)

Lemma validFiles_spec files f :
  f ∈ validFiles files <-> f ∈ files /\ String.prefix "image/" (file_type f) = true.
Proof.
  unfold validFiles. rewrite list_elem_of_filter. unfold isImage.
  rewrite Is_true_true. tauto.
Qed.

Lemma delete_last {A} (l : list A) (x : A) : delete (length l) (l ++ [x]) = l.
Proof. induction l as [|y l IH]; simpl; [done|]. by rewrite IH. Qed.

(** C8, as amended.  [addFiles] keeps the inputs whose declared type
    starts with [image/], in their order, and drops the others itself.
    Each input kept yields one new record, appended after the records
    already there (which are unchanged): status idle, no result, no error
    message, and settings whose format, compression flag, mode,
    aspect-ratio flag and scale are those of the global settings (the
    resizing revision copies width and height too).  The global settings
    and the flag are untouched.  In the resizing revision the call is
    suspended while the files are read; running it to its end with nothing
    in between gives the same state. *)
Theorem addFiles_appends_image_records rev tok files st :
  let st' := addFiles rev tok files st in
  let g := globalSettings st in
  globalSettings st' = g
  /\ isProcessing st' = isProcessing st
  /\ (forall f, f ∈ validFiles files
                <-> f ∈ files /\ String.prefix "image/" (file_type f) = true)
  /\ validFiles files `sublist_of` files
  /\ length (images st') = (length (images st) + length (validFiles files))%nat
  /\ (forall i img, images st !! i = Some img -> images st' !! i = Some img)
  /\ (forall k f, validFiles files !! k = Some f ->
        exists img,
          images st' !! (length (images st) + k)%nat = Some img
          /\ img_id img = tok_id (tok k) /\ img_file img = f
          /\ status img = Idle /\ result img = None /\ errorMessage img = None
          /\ format (settings img) = g_format g
          /\ enableCompression (settings img) = g_enableCompression g
          /\ mode (settings img) = g_mode g
          /\ maintainAspectRatio (settings img) = g_maintainAspectRatio g
          /\ scale (settings img) = g_scale g
          /\ (rev = Resizing ->
              width (settings img) = g_width g /\ height (settings img) = g_height g))
  /\ (forall sys tok0, store sys = st ->
        run Resizing [EvAddFiles tok0 files; EvFilesRead (length (adds sys)) tok] sys
        = Some (withStore sys (addFiles Resizing tok files st))).
Proof.
  simpl. split_and!; try done.
  - apply validFiles_spec.
  - apply sublist_filter.
  - by rewrite length_app, length_imap.
  - intros i img H. by apply lookup_app_l_Some.
  - intros k f H. eexists. split.
    + rewrite lookup_app_r by lia.
      replace (length (images st) + k - length (images st))%nat with k by lia.
      rewrite list_lookup_imap, H. reflexivity.
    + split_and!; try done; by destruct rev.
  - intros sys tok0 <-. simpl.
    rewrite lookup_app_r by lia. rewrite Nat.sub_diag. simpl.
    unfold withStore, addFiles. by rewrite delete_last.
Qed.

(** C8 as stated fails: the registry filters.  A text file handed to
    [addFiles] yields no record, in either revision; of a text file and a
    photo only the photo is taken. *)
Lemma addFiles_drops_other_types :
  addFiles Plain Sample.token [Sample.notes] (initialState Plain) = initialState Plain
  /\ img_file <$> images (addFiles Plain Sample.token [Sample.notes; Sample.photo]
                           (initialState Plain))
     = [Sample.photo]
  /\ run Resizing [EvAddFiles Sample.token [Sample.notes]; EvFilesRead 0 Sample.token]
       (initialSys Resizing)
     = Some (initialSys Resizing).
Proof. repeat split. Qed.

(* ===================================================================== *)
(** ** [processImages] *)
(* ===================================================================== *)

Lemma batchSettled_spec b ts :
  batchSettled b ts = true <-> forall t, t ∈ ts -> task_batch t <> Some b.
Proof.
  unfold batchSettled. rewrite forallb_forall. split.
  - intros H t Hin. apply list_elem_of_In in Hin. specialize (H t Hin).
    apply negb_true_iff, bool_decide_eq_false in H. done.
  - intros H t Hin. apply list_elem_of_In in Hin.
    apply negb_true_iff, bool_decide_eq_false. by apply H.
Qed.

Lemma elem_of_delete {A} (l : list A) k x : x ∈ delete k l -> x ∈ l.
Proof.
  revert k. induction l as [|y l IH]; intros k H; [by destruct k|].
  destruct k as [|k]; simpl in H; [by right|].
  apply elem_of_cons in H as [->|H]; [by left | right; eauto].
Qed.

Lemma short_list_singleton (l : list nat) b :
  (length l <= 1)%nat -> b ∈ l -> l = [b].
Proof.
  destruct l as [|x [|y l]]; simpl; intros Hlen Hin.
  - inversion Hin.
  - apply list_elem_of_singleton in Hin. by subst.
  - lia.
Qed.

Lemma solo_exec rev ev sys sys' :
  unoverlapped ev sys = true ->
  exec rev ev sys = Some sys' ->
  soloInvariant sys -> soloInvariant sys'.
Proof.
  intros Hun Hex (Hflag & Hlen & Hts).
  destruct ev; simpl in Hex.
  - destruct rev; injection Hex as <-; done.
  - destruct (adds sys !! k); [|done]. injection Hex as <-. done.
  - injection Hex as <-. done.
  - injection Hex as <-. done.
  - injection Hex as <-. done.
  - injection Hex as <-. done.
  - injection Hex as <-. done.
  - destruct (launch id (store sys)) as [st o] eqn:E. injection Hex as <-.
    assert (Hst : st = mapImage id markProcessing (store sys)).
    { rewrite <- launch_store. by rewrite E. }
    split_and!; simpl; [by subst st | done |].
    intros t b Hin Hb. apply elem_of_app in Hin as [Hin|Hin]; [eauto|].
    destruct o; [|inversion Hin].
    apply list_elem_of_singleton in Hin. subst t. done.
  - simpl in Hun. apply bool_decide_eq_true in Hun.
    destruct (processImagesHead (store sys)) as [st ops] eqn:E.
    injection Hex as <-.
    assert (Hst : st = fst (processImagesHead (store sys))) by (by rewrite E).
    split_and!; simpl.
    + rewrite Hst, processImagesHead_flag, Hun. done.
    + rewrite Hun. simpl. lia.
    + intros t b Hin Hb. apply elem_of_app in Hin as [Hin|Hin].
      * specialize (Hts t b Hin Hb). rewrite Hun in Hts. inversion Hts.
      * apply list_elem_of_fmap in Hin as (op & -> & _). simpl in Hb.
        injection Hb as <-. apply elem_of_app. right. by left.
  - destruct (tasks sys !! k) eqn:Ek; [|done].
    destruct (attempt rev rt (task_op t)); [| |done]; injection Hex as <-;
      (split_and!; simpl; [done | done |]);
      intros t' b Hin Hb; apply elem_of_delete in Hin; eauto.
  - destruct (bool_decide (b ∈ awaited sys)) eqn:Eb; simpl in Hex; [|done].
    destruct (batchSettled b (tasks sys)) eqn:Es; [|done].
    injection Hex as <-.
    apply bool_decide_eq_true in Eb.
    pose proof (short_list_singleton _ _ Hlen Eb) as Haw.
    assert (Hf : filter (fun c => c <> b) (awaited sys) = []).
    { rewrite Haw. rewrite filter_cons. by case_decide. }
    split_and!; simpl.
    + rewrite Hf. done.
    + rewrite Hf. simpl. lia.
    + intros t b' Hin Hb. exfalso.
      pose proof (Hts t b' Hin Hb) as Hb'. rewrite Haw in Hb'.
      apply list_elem_of_singleton in Hb'. subst b'.
      by apply (proj1 (batchSettled_spec b (tasks sys)) Es t Hin).
Qed.

Lemma solo_run rev evs sys sys' :
  runSolo rev evs sys = Some sys' -> soloInvariant sys -> soloInvariant sys'.
Proof.
  revert sys. induction evs as [|ev rest IH]; intros sys Hrun H; simpl in Hrun.
  - by injection Hrun as <-.
  - destruct (unoverlapped ev sys) eqn:Eu; [|done].
    destruct (exec rev ev sys) as [sys1|] eqn:E; [|done].
    eapply IH; [exact Hrun|]. by eapply solo_exec.
Qed.

Lemma solo_initial rev : soloInvariant (initialSys rev).
Proof. split_and!; simpl; [done | lia |]. intros t b Hin. inversion Hin. Qed.






(* ===================================================================== *)
(** ** [exportImages] *)
(* ===================================================================== *)

Lemma allowed_spec c :
  allowed c = true <->
  (97 <= c <= 122 \/ 65 <= c <= 90 \/ 48 <= c <= 57 \/ c = 95 \/ c = 45
   \/ c = 46 \/ 0x4e00 <= c <= 0x9fa5)%N.
Proof.
  unfold allowed, in_range.
  rewrite !orb_true_iff, !andb_true_iff, !N.leb_le, !N.eqb_eq. lia.
Qed.

Lemma sanitizeFileName_lookup name i c :
  name !! i = Some c ->
  sanitizeFileName name !! i = Some (if allowed c then c else 95%N).
Proof. intros H. unfold sanitizeFileName. by rewrite list_lookup_fmap, H. Qed.

Lemma doneImages_result imgs img :
  img ∈ doneImages imgs -> status img = Done /\ is_Some (result img).
Proof. unfold doneImages. rewrite list_elem_of_filter. tauto. Qed.

Lemma doneImages_none imgs :
  (forall img, img ∈ imgs -> status img <> Done) -> doneImages imgs = [].
Proof.
  intros H. destruct (doneImages imgs) as [|x xs] eqn:E; [done|].
  assert (Hx : x ∈ doneImages imgs) by (rewrite E; by left).
  unfold doneImages in Hx. apply list_elem_of_filter in Hx as [[Hs _] Hin].
  by destruct (H x Hin).
Qed.

Section Archive.
Implicit Types (zip : gmap jsstr Blob) (imgs : list ImageConfig).

Lemma zipEntry_dom zip img :
  is_Some (result img) -> dom (zipEntry zip img) = {[exportFileName img]} ∪ dom zip.
Proof. intros [r Hr]. unfold zipEntry. rewrite Hr. apply dom_insert_L. Qed.

Lemma archive_dom imgs zip :
  Forall (fun img => is_Some (result img)) imgs ->
  dom (foldl zipEntry zip imgs) = list_to_set (exportFileName <$> imgs) ∪ dom zip.
Proof.
  intros H. revert zip. induction H as [|img imgs Hr _ IH]; intros zip; simpl.
  - set_solver.
  - rewrite IH, zipEntry_dom by done. set_solver.
Qed.

Lemma archive_lookup_other imgs zip name :
  name ∉ (exportFileName <$> imgs) ->
  foldl zipEntry zip imgs !! name = zip !! name.
Proof.
  revert zip. induction imgs as [|img imgs IH]; intros zip Hn; simpl; [done|].
  rewrite fmap_cons in Hn. apply not_elem_of_cons in Hn as [Hne Hn].
  rewrite IH by done. unfold zipEntry.
  destruct (result img); [|done]. by rewrite lookup_insert_ne.
Qed.

(** The entry under a name holds the blob of the last record that
    generates this name. *)
Lemma archive_lookup_last imgs zip i img r :
  imgs !! i = Some img -> result img = Some r ->
  (forall j img', (i < j)%nat -> imgs !! j = Some img' ->
                  exportFileName img' <> exportFileName img) ->
  foldl zipEntry zip imgs !! exportFileName img = Some (res_blob r).
Proof.
  revert zip i. induction imgs as [|x imgs IH]; intros zip i Hi Hr Hlast; [done|].
  destruct i as [|i]; simpl in *.
  - injection Hi as ->. rewrite archive_lookup_other.
    + unfold zipEntry. rewrite Hr. apply lookup_insert_eq.
    + intros Hin. apply list_elem_of_fmap in Hin as (img' & Heq & Hin).
      apply list_elem_of_lookup in Hin as [j Hj].
      apply (Hlast (S j) img'); [lia | done | done].
  - apply (IH _ i); [done | done |].
    intros j img' Hlt Hj. apply (Hlast (S j) img'); [lia | done].
Qed.
End Archive.

(** C7, as amended.  [exportImages] does nothing when no record has status
    done.  With exactly one done record it clicks one link whose name is
    the sanitized base name, then [_purepixel.], then the extension of
    that record's format setting, which is the extension of the format of
    the result when the result is in the format of the setting.  With
    more than one it builds one
    archive whose entries are keyed by those generated names: one entry
    per distinct name, holding the blob of the last done record with that
    name, hence one entry per done record when the names are pairwise
    distinct.  Sanitizing keeps the length and replaces by an underscore
    every code unit outside [a-z], [A-Z], [0-9], underscore, hyphen, dot
    and U+4E00..U+9FA5. *)
Theorem exportImages_names_and_archive now st :
  ((forall img, img ∈ images st -> status img <> Done) ->
     exportImages now st = NoExport)
  /\ (forall img, doneImages (images st) = [img] ->
        exists r, result img = Some r
          /\ exportImages now st
             = Download (res_url r)
                 (sanitizeFileName (stripExtension (file_name (img_file img)))
                  ++ units "_purepixel."
                  ++ units (getExtension (format (settings img))))
          /\ (blob_type (res_blob r) = format (settings img) ->
              exportImages now st
              = Download (res_url r)
                  (sanitizeFileName (stripExtension (file_name (img_file img)))
                   ++ units "_purepixel."
                   ++ units (getExtension (blob_type (res_blob r))))))
  /\ ((1 < length (doneImages (images st)))%nat ->
        exists zip, exportImages now st = ArchiveDownload zip now
          /\ dom zip = list_to_set (exportFileName <$> doneImages (images st))
          /\ (forall i img r,
                doneImages (images st) !! i = Some img -> result img = Some r ->
                (forall j img', (i < j)%nat ->
                   doneImages (images st) !! j = Some img' ->
                   exportFileName img' <> exportFileName img) ->
                zip !! exportFileName img = Some (res_blob r))
          /\ (NoDup (exportFileName <$> doneImages (images st)) ->
                size zip = length (doneImages (images st))))
  /\ (forall name,
        length (sanitizeFileName name) = length name
        /\ (forall i c, name !! i = Some c ->
              sanitizeFileName name !! i = Some (if allowed c then c else 95%N)))
  /\ (forall c, allowed c = true <->
        (97 <= c <= 122 \/ 65 <= c <= 90 \/ 48 <= c <= 57 \/ c = 95 \/ c = 45
         \/ c = 46 \/ 0x4e00 <= c <= 0x9fa5)%N).
Proof.
  split_and!.
  - intros H. unfold exportImages. by rewrite doneImages_none.
  - intros img H.
    assert (Hin : img ∈ doneImages (images st)) by (rewrite H; by left).
    apply doneImages_result in Hin as [_ [r Hr]].
    exists r. split; [done|]. unfold exportImages. rewrite H, Hr.
    split; [done|]. by intros ->.
  - intros Hlen.
    assert (Hall : Forall (fun img => is_Some (result img)) (doneImages (images st))).
    { apply Forall_forall. intros img Hin. by apply doneImages_result in Hin as [_ ?]. }
    exists (foldl zipEntry ∅ (doneImages (images st))).
    assert (Hdom : dom (foldl zipEntry ∅ (doneImages (images st)))
                   = list_to_set (exportFileName <$> doneImages (images st))).
    { rewrite archive_dom by done. set_solver. }
    split_and!.
    + unfold exportImages.
      destruct (doneImages (images st)) as [|x [|y l]]; simpl in Hlen; [lia | lia | done].
    + done.
    + intros i img r. apply archive_lookup_last.
    + intros Hnd. rewrite <- size_dom, Hdom, size_list_to_set by done.
      by rewrite length_fmap.
  - intros name. split.
    + unfold sanitizeFileName. by rewrite length_fmap.
    + intros i c. apply sanitizeFileName_lookup.
  - apply allowed_spec.
Qed.

(** C7 as stated fails on the extension and on the number of entries.
    A photo whose format setting is AVIF, converted by a browser that
    cannot encode AVIF (resizing revision), is stored as WEBP and exported
    under a name that ends in [.avif].  A PNG processed in mode compress
    (plain revision) is stored as PNG and exported under a name that ends
    in [.webp].  Two done records made from files of the same name give
    an archive of one entry. *)
Lemma export_extension_and_entries_differ :
  reachable Resizing (Sample.after Resizing Sample.avifWithoutAvif)
  /\ reachable Plain (Sample.after Plain Sample.compressOnly)
  /\ reachable Plain (Sample.after Plain Sample.twoOfOneName)
  /\ resultTypes (store (Sample.after Resizing Sample.avifWithoutAvif))
     = [Some "image/webp"]
  /\ downloadName (exportImages 0 (store (Sample.after Resizing Sample.avifWithoutAvif)))
     = Some (units "holiday_photo_purepixel.avif")
  /\ resultTypes (store (Sample.after Plain Sample.compressOnly))
     = [Some "image/png"]
  /\ downloadName (exportImages 0 (store (Sample.after Plain Sample.compressOnly)))
     = Some (units "holiday_photo_purepixel.webp")
  /\ length (doneImages (images (store (Sample.after Plain Sample.twoOfOneName))))
     = 2%nat
  /\ entryCount (exportImages 0 (store (Sample.after Plain Sample.twoOfOneName)))
     = 1%nat.
Proof.
  split; [run_events|]. split; [run_events|]. split; [run_events|].
  repeat split; vm_compute; reflexivity.
Qed.

(* ===================================================================== *)
(** ** The encoder calls of the engines *)
(* ===================================================================== *)

Lemma andThen_requests r k : fst (andThen r k) = fst r.
Proof. by destruct r as [reqs [b|e|]]. Qed.

Lemma pickQuality_off fmt : pickQuality fmt false = 1.0%Q.
Proof. reflexivity. Qed.

Lemma pickQuality_png flag : pickQuality "image/png" flag = 1.0%Q.
Proof. by destruct flag. Qed.

(** [src/store/useImageStore.ts]: at most one call, for the format and
    with the quality of the arguments, on a canvas of the image's size. *)
Lemma plain_convertImage_requests rt f fmt flag :
  fst (PlainEngine.convertImage rt f fmt flag) = []
  \/ exists w h,
       loadImage rt f = Loaded w h
       /\ fst (PlainEngine.convertImage rt f fmt flag)
          = [mkReq w h (Some (file_data f)) fmt (pickQuality fmt flag)].
Proof.
  unfold PlainEngine.convertImage.
  destruct (loadImage rt f) as [w h| |]; [|by left|by left].
  destruct (getContext2d rt w h); simpl; [|by left].
  destruct (drawImage rt f w h); [by left|].
  right. exists w, h. done.
Qed.

(** The resizing revision: every call that encodes the image asks for the
    requested format, its fallback or PNG, with the table's quality for
    the format it asks for. *)
Lemma resizing_convertImage_requests rt f fmt flag ro req :
  req ∈ fst (ResizingEngine.convertImage rt f fmt flag ro) ->
  (req = ResizingEngine.probeReq /\ fmt = "image/avif")
  \/ (req_source req = Some (file_data f)
      /\ req_quality req = pickQuality (req_format req) flag
      /\ (req_format req = fmt
          \/ req_format req = ResizingEngine.getFallbackFormat fmt
          \/ req_format req = "image/png")).
Proof.
  unfold ResizingEngine.convertImage.
  assert (Hprobe : forall q, q ∈ fst (ResizingEngine.checkFormatSupport rt fmt) ->
                     q = ResizingEngine.probeReq /\ fmt = "image/avif").
  { unfold ResizingEngine.checkFormatSupport. intros q.
    case_bool_decide; simpl; [|by inversion 1].
    intros Hq. apply list_elem_of_singleton in Hq. done. }
  assert (Htarget : forall b : bool,
             (if b then fmt else ResizingEngine.getFallbackFormat fmt) = fmt
             \/ (if b then fmt else ResizingEngine.getFallbackFormat fmt)
                = ResizingEngine.getFallbackFormat fmt).
  { intros []; auto. }
  destruct (ResizingEngine.checkFormatSupport rt fmt) as [probes ok]. simpl in Hprobe.
  specialize (Htarget ok).
  set (target := if ok then fmt else ResizingEngine.getFallbackFormat fmt) in *.
  destruct (loadImage rt f) as [w h| |]; simpl; [|by left; auto|by left; auto].
  destruct (ResizingEngine.planDimensions w h ro) as [fw fh].
  destruct (getContext2d rt fw fh); simpl; [|by left; auto].
  destruct (drawImage rt f fw fh); simpl; [by left; auto|].
  assert (Hmain : forall q,
             q = mkReq fw fh (Some (file_data f)) target (pickQuality target flag)
             \/ q = mkReq fw fh (Some (file_data f)) "image/png" 1.0%Q ->
             req_source q = Some (file_data f)
             /\ req_quality q = pickQuality (req_format q) flag
             /\ (req_format q = fmt
                 \/ req_format q = ResizingEngine.getFallbackFormat fmt
                 \/ req_format q = "image/png")).
  { intros q [-> | ->]; simpl.
    - split; [done|]. split; [done|]. destruct Htarget; auto.
    - split; [done|]. split; [by rewrite pickQuality_png | auto]. }
  destruct (toBlob rt _) as [blob|]; [destruct (0 <? blob_size blob)|]; simpl;
    intros Hin; apply elem_of_app in Hin as [Hin|Hin]; auto; right; apply Hmain;
    repeat (apply elem_of_cons in Hin as [Hin|Hin]; auto); inversion Hin.
Qed.

(** The worker makes at most one call, with the policy's format and
    quality, on a canvas of the bitmap's size. *)
Lemma worker_requests wrt m req :
  req ∈ fst (Worker.onmessage wrt m) ->
  (req_format req, req_quality req)
  = Worker.outputPolicy (Worker.msg_type m) (Worker.mimeType m)
      (Worker.msg_format m) (Worker.msg_enableCompression m)
  /\ exists w h, createImageBitmap wrt (Worker.mimeType m) (Worker.imageData m)
                 = inr (w, h)
                 /\ req_width req = w /\ req_height req = h.
Proof.
  unfold Worker.onmessage.
  destruct (createImageBitmap wrt _ _) as [e|[w h]]; simpl; [by inversion 1|].
  destruct (offscreenContext2d wrt w h); simpl; [|by inversion 1].
  destruct (Worker.outputPolicy _ _ _ _) as [fmt q].
  destruct (convertToBlob wrt _); simpl; intros Hin;
    apply list_elem_of_singleton in Hin; subst req; simpl;
    (split; [done | by exists w, h]).
Qed.

(* ===================================================================== *)
(** ** Format policy *)
(* ===================================================================== *)

Lemma imageRequests_spec r req :
  req ∈ imageRequests r <-> is_Some (req_source req) /\ req ∈ fst r.
Proof. unfold imageRequests. by rewrite list_elem_of_filter. Qed.

Lemma plain_pipeline_requests rt op req :
  req ∈ fst (pipeline Plain rt op) ->
  mode (settings (op_image op)) <> Compress
  /\ req_format req = format (settings (op_image op))
  /\ req_quality req
     = pickQuality (format (settings (op_image op)))
         (match mode (settings (op_image op)) with
          | Both => enableCompression (settings (op_image op))
          | _ => false
          end).
Proof.
  unfold pipeline. destruct (mode (settings (op_image op))); simpl.
  - destruct (plain_convertImage_requests rt (img_file (op_image op))
                (format (settings (op_image op))) false) as [-> | (w & h & _ & ->)];
      intros Hin; [inversion Hin|].
    apply list_elem_of_singleton in Hin. by subst req.
  - inversion 1.
  - rewrite andThen_requests.
    destruct (plain_convertImage_requests rt (img_file (op_image op))
                (format (settings (op_image op)))
                (enableCompression (settings (op_image op))))
      as [-> | (w & h & _ & ->)]; intros Hin; [inversion Hin|].
    apply list_elem_of_singleton in Hin. by subst req.
Qed.

(** C2, as amended.  The worker's policy is the function the claim
    describes: in mode compress the output format is the original MIME
    type and the quality 0.92 whatever the flag; in modes convert and both
    the output format is the requested one and the quality is 1.0 unless
    the flag is set, when JPEG and WEBP get 0.92, AVIF gets 0.9 and every
    other format 1.0; and the worker encodes with exactly that format and
    quality.  The store's own dispatch differs: in mode convert it encodes
    the image at quality 1.0 whatever the flag; in mode compress the plain
    revision makes no canvas encode at all and the resizing revision
    re-encodes at quality 1.0, asking for the file's own type (or its
    fallback, or PNG); in mode both every encode of the image has the
    quality the table gives for the format it asks for. *)
Theorem format_policy_of_worker_and_store :
  (forall mime fmt flag,
      Worker.outputPolicy Compress mime fmt flag = (mime, 0.92%Q))
  /\ (forall m mime fmt flag, m = Convert \/ m = Both ->
        fst (Worker.outputPolicy m mime fmt flag) = fmt
        /\ (flag = false -> snd (Worker.outputPolicy m mime fmt flag) = 1.0%Q)
        /\ (flag = true -> fmt = "image/jpeg" \/ fmt = "image/webp" ->
            snd (Worker.outputPolicy m mime fmt flag) = 0.92%Q)
        /\ (flag = true -> fmt = "image/avif" ->
            snd (Worker.outputPolicy m mime fmt flag) = 0.9%Q)
        /\ (flag = true -> fmt <> "image/jpeg" -> fmt <> "image/webp" ->
            fmt <> "image/avif" ->
            snd (Worker.outputPolicy m mime fmt flag) = 1.0%Q))
  /\ (forall wrt m req, req ∈ fst (Worker.onmessage wrt m) ->
        (req_format req, req_quality req)
        = Worker.outputPolicy (Worker.msg_type m) (Worker.mimeType m)
            (Worker.msg_format m) (Worker.msg_enableCompression m))
  /\ (forall rev rt op req,
        mode (settings (op_image op)) = Convert ->
        req ∈ imageRequests (pipeline rev rt op) ->
        req_quality req = 1.0%Q)
  /\ (forall rt op,
        mode (settings (op_image op)) = Compress ->
        fst (pipeline Plain rt op) = [])
  /\ (forall rt op req,
        mode (settings (op_image op)) = Compress ->
        req ∈ imageRequests (pipeline Resizing rt op) ->
        req_quality req = 1.0%Q
        /\ (req_format req = file_type (img_file (op_image op))
            \/ req_format req
               = ResizingEngine.getFallbackFormat (file_type (img_file (op_image op)))
            \/ req_format req = "image/png"))
  /\ (forall rev rt op req,
        mode (settings (op_image op)) = Both ->
        req ∈ imageRequests (pipeline rev rt op) ->
        req_quality req
        = pickQuality (req_format req) (enableCompression (settings (op_image op)))).
Proof.
  split_and!.
  - done.
  - intros m mime fmt flag [-> | ->]; simpl; unfold pickQuality;
      (split_and!; [done | by intros -> | | |]).
    all: try (intros -> [-> | ->]; reflexivity).
    all: try (intros -> ->; reflexivity).
    all: intros -> H1 H2 H3; by rewrite !bool_decide_eq_false_2.
  - intros wrt m req Hin. by apply worker_requests in Hin as [? _].
  - intros rev rt op req Hm Hin. apply imageRequests_spec in Hin as [Hsrc Hin].
    destruct rev.
    + apply plain_pipeline_requests in Hin as (_ & _ & ->). by rewrite Hm.
    + unfold pipeline in Hin. rewrite Hm in Hin.
      apply resizing_convertImage_requests in Hin as [[-> _] | (_ & -> & _)].
      * by destruct Hsrc.
      * done.
  - intros rt op Hm. unfold pipeline. by rewrite Hm.
  - intros rt op req Hm Hin. apply imageRequests_spec in Hin as [Hsrc Hin].
    unfold pipeline in Hin. rewrite Hm, andThen_requests in Hin.
    apply resizing_convertImage_requests in Hin as [[-> _] | (_ & -> & Hf)].
    + by destruct Hsrc.
    + done.
  - intros rev rt op req Hm Hin. apply imageRequests_spec in Hin as [Hsrc Hin].
    destruct rev.
    + apply plain_pipeline_requests in Hin as (_ & -> & ->). by rewrite Hm.
    + unfold pipeline in Hin. rewrite Hm, andThen_requests in Hin.
      apply resizing_convertImage_requests in Hin as [[-> _] | (_ & -> & _)].
      * by destruct Hsrc.
      * done.
Qed.

(** Witness for C2: the worker in mode both, AVIF asked for, flag set. *)
Lemma format_policy_witness :
  (Both = Convert \/ Both = Both)
  /\ Worker.outputPolicy Both "image/png" "image/avif" true = ("image/avif", 0.9%Q).
Proof.
  assert (H : Both = Convert \/ Both = Both) by (by right).
  split; [exact H|].
  destruct (proj1 (proj2 format_policy_of_worker_and_store)
              Both "image/png" "image/avif" true H) as (Hf & _ & _ & Hq & _).
  rewrite (surjective_pairing (Worker.outputPolicy Both "image/png" "image/avif" true)).
  rewrite Hf, Hq by reflexivity. reflexivity.
Defined.

(** C2 as stated fails for the store.  With mode convert, JPEG and the
    compression flag set, both revisions of the store encode at quality
    1.0 where the stated policy gives 0.92.  With mode compress the plain
    revision does not encode on a canvas and the resizing revision encodes
    the PNG at quality 1.0, where the stated policy gives 0.92. *)
Lemma store_dispatch_departs_from_policy :
  req_quality <$> fst (pipeline Plain Sample.browser (Sample.convertJpeg None))
    = [1.0%Q]
  /\ req_quality <$> fst (pipeline Resizing Sample.browser
                           (Sample.convertJpeg (Some ResizeNone)))
     = [1.0%Q]
  /\ snd (Worker.outputPolicy Convert "image/png" "image/jpeg" true) = 0.92%Q
  /\ fst (pipeline Plain Sample.browser (Sample.compressPhoto None)) = []
  /\ (fun q => (req_format q, req_quality q))
       <$> fst (pipeline Resizing Sample.browser
                  (Sample.compressPhoto (Some ResizeNone)))
     = [("image/png", 1.0%Q)]
  /\ Worker.outputPolicy Compress "image/png" "image/webp" true
     = ("image/png", 0.92%Q)
  /\ ~ (1.0 == 0.92)%Q.
Proof. repeat split; try (vm_compute; reflexivity). intros H. discriminate H. Qed.

(* ===================================================================== *)
(** ** The dimension planner of the resizing revision *)
(* ===================================================================== *)

Section Planner.
Import ResizingEngine.


Lemma round_le x n : (x <= inject_Z n)%Q -> round x <= n.
Proof.
  intros H. unfold round.
  assert (Hlt : (inject_Z (Qfloor (x + (1 # 2))) < inject_Z (n + 1))%Q).
  { eapply Qle_lt_trans; [apply Qfloor_le|].
    eapply Qle_lt_trans; [apply Qplus_le_l; exact H|].
    rewrite inject_Z_plus. apply Qplus_lt_r. done. }
  rewrite <- Zlt_Qlt in Hlt. lia.
Qed.

Lemma round_Z n : round (inject_Z n) = n.
Proof.
  unfold round. apply Z.le_antisymm.
  - apply (round_le (inject_Z n) n). apply Qle_refl.
  - rewrite <- (Qfloor_Z n) at 1. apply Qfloor_resp_le.
    rewrite <- (Qplus_0_r (inject_Z n)) at 1. apply Qplus_le_r. done.
Qed.












End Planner.




(* ===================================================================== *)
(** ** The PNG retry and the AVIF probe *)
(* ===================================================================== *)

(** In the resizing revision, when the first encode calls back with null
    or with an empty blob, exactly one more encode is made, of the same
    canvas as PNG at quality 1.0, and its blob is the result; the call
    fails only if that one gives null too. *)
Lemma resizing_convertImage_retries_png rt f fmt flag ro w h fw fh :
  loadImage rt f = Loaded w h ->
  ResizingEngine.planDimensions w h ro = (fw, fh) ->
  getContext2d rt fw fh = true ->
  drawImage rt f fw fh = None ->
  let target := if snd (ResizingEngine.checkFormatSupport rt fmt)
                then fmt else ResizingEngine.getFallbackFormat fmt in
  let req := mkReq fw fh (Some (file_data f)) target (pickQuality target flag) in
  let png := mkReq fw fh (Some (file_data f)) "image/png" 1.0%Q in
  (toBlob rt req = None \/ exists b, toBlob rt req = Some b /\ blob_size b <= 0) ->
  ResizingEngine.convertImage rt f fmt flag ro
  = (fst (ResizingEngine.checkFormatSupport rt fmt) ++ [req; png],
     match toBlob rt png with
     | Some pngBlob => Resolved pngBlob
     | None => Rejected (ErrorObject "图片转换失败，请尝试其他格式")
     end).
Proof.
  intros Hl Hp Hc Hd target req png Hfail.
  unfold ResizingEngine.convertImage. subst target req png.
  destruct (ResizingEngine.checkFormatSupport rt fmt) as [probes ok]. simpl in *.
  rewrite Hl, Hp, Hc, Hd. simpl.
  destruct Hfail as [-> | (b & -> & Hb)]; [done|].
  by rewrite (proj2 (Z.ltb_ge _ _) Hb).
Qed.

(** In the resizing revision an AVIF request starts with the probe, and
    when the probe gives null or an empty blob every encode of the image
    asks for WEBP (or, on the retry, PNG). *)
Lemma resizing_convertImage_probes_avif rt f flag ro :
  (exists rest,
      fst (ResizingEngine.convertImage rt f "image/avif" flag ro)
      = ResizingEngine.probeReq :: rest)
  /\ ((toBlob rt ResizingEngine.probeReq = None
       \/ exists b, toBlob rt ResizingEngine.probeReq = Some b /\ blob_size b <= 0) ->
      forall req,
        req ∈ imageRequests (ResizingEngine.convertImage rt f "image/avif" flag ro) ->
        req_format req = "image/webp" \/ req_format req = "image/png").
Proof.
  split.
  - unfold ResizingEngine.convertImage, ResizingEngine.checkFormatSupport. simpl.
    destruct (loadImage rt f) as [w h| |]; simpl; eauto.
    destruct (ResizingEngine.planDimensions w h ro) as [fw fh].
    destruct (getContext2d rt fw fh); simpl; eauto.
    destruct (drawImage rt f fw fh); simpl; eauto.
    destruct (toBlob rt (mkReq fw fh _ _ _)) as [blob|];
      [destruct (0 <? blob_size blob)|]; simpl; eauto.
  - intros Hfail req Hin. apply imageRequests_spec in Hin as [Hsrc Hin].
    unfold ResizingEngine.convertImage, ResizingEngine.checkFormatSupport in Hin.
    simpl in Hin.
    assert (Hok : match toBlob rt ResizingEngine.probeReq with
                  | Some blob => 0 <? blob_size blob
                  | None => false
                  end = false).
    { destruct Hfail as [-> | (b & -> & Hb)]; [done|]. by apply Z.ltb_ge. }
    rewrite Hok in Hin.
    destruct (loadImage rt f) as [w h| |]; simpl in Hin.
    2,3: apply list_elem_of_singleton in Hin; subst req; by destruct Hsrc.
    destruct (ResizingEngine.planDimensions w h ro) as [fw fh].
    destruct (getContext2d rt fw fh); simpl in Hin.
    2: apply list_elem_of_singleton in Hin; subst req; by destruct Hsrc.
    destruct (drawImage rt f fw fh); simpl in Hin.
    1: apply list_elem_of_singleton in Hin; subst req; by destruct Hsrc.
    destruct (toBlob rt (mkReq fw fh _ _ _)) as [blob|];
      [destruct (0 <? blob_size blob)|]; simpl in Hin;
      repeat (apply elem_of_cons in Hin as [->|Hin];
              [first [by destruct Hsrc | by left | by right]|]);
      inversion Hin.
Qed.

(** No step of [processSingleImage] writes a record's settings. *)
Lemma processSingleImage_keeps_settings rev rt id st st' :
  processSingleImage rev rt id st = Some st' ->
  settings <$> images st' = settings <$> images st.
Proof.
  unfold processSingleImage.
  assert (Hmap : forall (f : ImageConfig -> ImageConfig) s,
             (forall img, settings (f img) = settings img) ->
             settings <$> images (mapImage id f s) = settings <$> images s).
  { intros f s Hf. unfold mapImage, mapImages; simpl.
    rewrite <- list_fmap_compose. apply list_fmap_ext.
    intros i img _. simpl. case_bool_decide; auto. }
  destruct (launch id st) as [st1 o] eqn:E.
  assert (H1 : settings <$> images st1 = settings <$> images st).
  { replace st1 with (fst (launch id st)) by (by rewrite E).
    rewrite launch_store. by apply Hmap. }
  destruct o as [op|]; [|by intros [= <-]].
  destruct (attempt rev rt op); [| |done]; intros [= <-]; rewrite <- H1;
    by apply Hmap.
Qed.

(** C4 at the failing input: a browser that cannot encode WEBP.  The
    plain [convertImage] makes the one WEBP call and rejects; the worker,
    handed an empty blob by its encoder, posts it as the result; neither
    encodes to PNG.  The resizing [convertImage], on the same photo and
    browser, makes the WEBP call and then the PNG call, and resolves.
    In the registry the plain revision leaves the record in error, the
    resizing revision leaves it done with a PNG result. *)
Theorem null_encode_not_retried_outside_resizing :
  PlainEngine.convertImage Sample.noWebp Sample.photo "image/webp" true
    = ([mkReq 2000 1000 (Some 1%N) "image/webp" 0.92%Q],
       Rejected (ErrorObject "转换失败"))
  /\ Worker.onmessage Sample.workerEmpty Sample.webpMessage
     = ([mkReq 2000 1000 (Some 1%N) "image/webp" 0.92%Q],
        [Worker.Progress "img_a" 10; Worker.Progress "img_a" 30;
         Worker.Progress "img_a" 50; Worker.Progress "img_a" 70;
         Worker.Progress "img_a" 90;
         Worker.Success "img_a" (mkBlob "image/webp" 0 0) 0])
  /\ ResizingEngine.convertImage Sample.noWebp Sample.photo "image/webp" true None
     = ([mkReq 2000 1000 (Some 1%N) "image/webp" 0.92%Q;
         mkReq 2000 1000 (Some 1%N) "image/png" 1.0%Q],
        Resolved (mkBlob "image/png" 400 1))
  /\ (fun img => (status img, errorMessage img))
       <$> images (store (Sample.after Plain (Sample.webpWithoutWebp Plain)))
     = [(Error, Some "转换失败")]
  /\ (status <$> images (store (Sample.after Resizing (Sample.webpWithoutWebp Resizing))),
      resultTypes (store (Sample.after Resizing (Sample.webpWithoutWebp Resizing))))
     = ([Done], [Some "image/png"]).
Proof. repeat split. Qed.

(** C5 at the failing input: a runtime that cannot encode AVIF.  The
    worker makes one call, for AVIF on the bitmap's canvas, and posts the
    encoder's error; the plain [convertImage] likewise asks for AVIF and
    rejects; neither probes nor substitutes WEBP.  The resizing
    [convertImage] probes first and then asks for WEBP; the record ends
    done with a WEBP result and its format setting still AVIF. *)
Theorem avif_not_probed_outside_resizing :
  Worker.onmessage Sample.workerNoAvif Sample.avifMessage
    = ([mkReq 2000 1000 (Some 1%N) "image/avif" 0.9%Q],
       [Worker.Progress "img_a" 10; Worker.Progress "img_a" 30;
        Worker.Progress "img_a" 50; Worker.Progress "img_a" 70;
        Worker.Failure "img_a" "EncodingError"])
  /\ PlainEngine.convertImage Sample.noAvif Sample.photo "image/avif" true
     = ([mkReq 2000 1000 (Some 1%N) "image/avif" 0.9%Q],
        Rejected (ErrorObject "转换失败"))
  /\ ResizingEngine.convertImage Sample.noAvif Sample.photo "image/avif" true None
     = ([ResizingEngine.probeReq;
         mkReq 2000 1000 (Some 1%N) "image/webp" 0.92%Q],
        Resolved (mkBlob "image/webp" 400 1))
  /\ (fun img => (status img, format (settings img)))
       <$> images (store (Sample.after Resizing Sample.avifWithoutAvif))
     = [(Done, "image/avif")]
  /\ resultTypes (store (Sample.after Resizing Sample.avifWithoutAvif))
     = [Some "image/webp"].
Proof. repeat split. Qed.

(* ===================================================================== *)
(** ** Further properties: file names *)
(* ===================================================================== *)

Lemma sanitized_unit_allowed c : allowed (if allowed c then c else 95%N) = true.
Proof. destruct (allowed c) eqn:E; [exact E | reflexivity]. Qed.


(** X1.  [sanitizeFileName] leaves only characters of its class, so a
    second pass changes nothing, and a name made of such characters is
    returned as it is. *)
Theorem sanitizeFileName_idempotent name :
  Forall (fun c => allowed c = true) (sanitizeFileName name)
  /\ sanitizeFileName (sanitizeFileName name) = sanitizeFileName name
  /\ (Forall (fun c => allowed c = true) name -> sanitizeFileName name = name).
Proof.
  unfold sanitizeFileName. split_and!.
  - apply Forall_fmap, Forall_forall. intros c _. apply sanitized_unit_allowed.
  - rewrite <- list_fmap_compose. apply list_fmap_ext.
    intros i c _. simpl. by rewrite sanitized_unit_allowed.
  - intros H. induction H as [|c l Hc _ IH]; [done|].
    rewrite fmap_cons, Hc. by f_equal.
Qed.

Lemma stripExtension_prefix name : stripExtension name `prefix_of` name.
Proof.
  induction name as [|c r IH]; simpl; [done|].
  destruct (_ && _); [apply prefix_nil | by apply prefix_cons].
Qed.

Lemma stripExtension_no_dot name : 46%N ∉ name -> stripExtension name = name.
Proof.
  induction name as [|c r IH]; simpl; [done|].
  intros Hn. apply not_elem_of_cons in Hn as [Hc Hr].
  rewrite (proj2 (N.eqb_neq c 46)) by done. simpl. by rewrite IH.
Qed.

Lemma extension_chars_spec ext :
  forallb (fun d => negb (d =? 47)%N && negb (d =? 46)%N) ext = true
  <-> (46%N ∉ ext) /\ (47%N ∉ ext).
Proof.
  induction ext as [|c r IH]; simpl.
  - split; [intros _; split; inversion 1 | done].
  - rewrite andb_true_iff, IH, andb_true_iff, !negb_true_iff, !N.eqb_neq.
    rewrite !not_elem_of_cons. naive_solver.
Qed.

Lemma stripExtension_cut base ext :
  ext <> [] -> 46%N ∉ ext -> 47%N ∉ ext ->
  stripExtension (base ++ 46%N :: ext) = base.
Proof.
  intros Hne H46 H47. induction base as [|c r IH]; simpl.
  - rewrite bool_decide_eq_false_2 by done. simpl.
    by rewrite (proj2 (extension_chars_spec ext)).
  - replace (forallb _ (r ++ 46%N :: ext)) with false; [|symmetry].
    + rewrite andb_false_r. by rewrite IH.
    + apply not_true_is_false. intros Hall.
      apply extension_chars_spec in Hall as [Hd _]. apply Hd.
      apply elem_of_app. right. by left.
Qed.

Lemma stripExtension_keep base ext :
  46%N ∉ ext -> ext = [] \/ 47%N ∈ ext ->
  stripExtension (base ++ 46%N :: ext) = base ++ 46%N :: ext.
Proof.
  intros H46 Hbad.
  assert (Hext : (negb (bool_decide (ext = []))
                  && forallb (fun d => negb (d =? 47)%N && negb (d =? 46)%N) ext)
                 = false).
  { destruct Hbad as [-> | H47]; [done|].
    apply andb_false_iff. right. apply not_true_is_false. intros Hall.
    by apply extension_chars_spec in Hall as [_ ?]. }
  induction base as [|c r IH]; simpl.
  - rewrite Hext. by rewrite stripExtension_no_dot.
  - replace (forallb _ (r ++ 46%N :: ext)) with false; [|symmetry].
    + rewrite andb_false_r. by rewrite IH.
    + apply not_true_is_false. intros Hall.
      apply extension_chars_spec in Hall as [Hd _]. apply Hd.
      apply elem_of_app. right. by left.
Qed.

(** X2.  The base name of [exportImages]: the name is cut at its last dot
    when one or more characters other than [/] follow it, and is kept
    whole otherwise (no dot, a dot at the very end, a [/] after the last
    dot).  What is left is always a prefix of the name. *)
Theorem stripExtension_cuts_last_extension name :
  stripExtension name `prefix_of` name
  /\ (46%N ∉ name -> stripExtension name = name)
  /\ (forall base ext, name = base ++ 46%N :: ext -> 46%N ∉ ext ->
        (ext <> [] /\ 47%N ∉ ext -> stripExtension name = base)
        /\ (ext = [] \/ 47%N ∈ ext -> stripExtension name = name)).
Proof.
  split_and!.
  - apply stripExtension_prefix.
  - apply stripExtension_no_dot.
  - intros base ext -> H46. split.
    + intros [Hne H47]. by apply stripExtension_cut.
    + intros Hbad. by apply stripExtension_keep.
Qed.



(* ===================================================================== *)
(** ** Further properties: the registry *)
(* ===================================================================== *)

Lemma removeImage_absent id st img :
  img ∈ images (removeImage id st) -> img_id img <> id.
Proof. simpl. rewrite list_elem_of_filter. tauto. Qed.

(** X4.  Once [removeImage(id)] has run, a result or an error that
    arrives for [id] is dropped, [processSingleImage(id)] returns at once
    without a change, and a second [removeImage(id)] changes nothing; the
    records of other ids are kept, in their order. *)
Theorem removed_record_ignores_late_outcome rev rt id r e st :
  storeResult id r (removeImage id st) = removeImage id st
  /\ storeError id e (removeImage id st) = removeImage id st
  /\ processSingleImage rev rt id (removeImage id st) = Some (removeImage id st)
  /\ removeImage id (removeImage id st) = removeImage id st
  /\ images (removeImage id st) = filter (fun img => img_id img <> id) (images st)
  /\ (forall img, img ∈ images st -> img_id img <> id ->
        img ∈ images (removeImage id st)).
Proof.
  split_and!.
  - apply mapImage_absent, removeImage_absent.
  - apply mapImage_absent, removeImage_absent.
  - unfold processSingleImage.
    by rewrite (launch_absent id _ (removeImage_absent id st)).
  - unfold removeImage; simpl. f_equal.
    rewrite list_filter_filter. apply list_filter_iff. tauto.
  - done.
  - intros img Hin Hne. simpl. by apply list_elem_of_filter.
Qed.

Lemma mapImage_fields {A} (g : ImageConfig -> A) id f st :
  (forall img, g (f img) = g img) ->
  g <$> images (mapImage id f st) = g <$> images st.
Proof.
  intros Hf. unfold mapImage, mapImages; simpl.
  rewrite <- list_fmap_compose. apply list_fmap_ext.
  intros i img _. simpl. case_bool_decide; auto.
Qed.

Lemma launchAll_fields {A} (g : ImageConfig -> A) ids st :
  (forall img, g (markProcessing img) = g img) ->
  g <$> images (fst (launchAll ids st)) = g <$> images st.
Proof.
  intros Hg. revert st. induction ids as [|id rest IH]; intros st; simpl; [done|].
  destruct (launch id st) as [st1 o] eqn:E1.
  destruct (launchAll rest st1) as [st2 ops] eqn:E2. simpl.
  specialize (IH st1). rewrite E2 in IH. simpl in IH. rewrite IH.
  replace st1 with (fst (launch id st)) by (by rewrite E1).
  rewrite launch_store. by apply mapImage_fields.
Qed.

(** X5.  No step of [processSingleImage] or [processImages] (the call,
    the return of a call in flight, the resumption of a batch) adds, drops
    or reorders records or writes a record's id, file, preview URL or
    settings, or the global settings; it writes status, result and error
    message only. *)
Theorem processing_keeps_identity_and_settings rev ev sys sys' :
  isProcessingEvent ev = true ->
  exec rev ev sys = Some sys' ->
  (fun img => (identity img, settings img)) <$> images (store sys')
  = (fun img => (identity img, settings img)) <$> images (store sys)
  /\ globalSettings (store sys') = globalSettings (store sys).
Proof.
  intros Hev Hex. destruct ev; try discriminate Hev; simpl in Hex.
  - destruct (launch id (store sys)) as [st o] eqn:E. injection Hex as <-. simpl.
    replace st with (fst (launch id (store sys))) by (by rewrite E).
    rewrite launch_store. split; [by apply mapImage_fields | done].
  - destruct (processImagesHead (store sys)) as [st ops] eqn:E.
    injection Hex as <-. simpl.
    replace st with (fst (processImagesHead (store sys))) by (by rewrite E).
    unfold processImagesHead. split.
    + by rewrite launchAll_fields.
    + change (globalSettings (store sys))
        with (globalSettings (setProcessing true (store sys))).
      generalize (setProcessing true (store sys)).
      generalize (img_id <$> pendingImages (images (store sys))).
      intros ids. induction ids as [|i rest IH]; intros st0; simpl; [done|].
      destruct (launch i st0) as [st1 o] eqn:E1.
      destruct (launchAll rest st1) as [st2 ops2] eqn:E2. simpl.
      specialize (IH st1). rewrite E2 in IH. simpl in IH. rewrite IH.
      replace st1 with (fst (launch i st0)) by (by rewrite E1).
      by rewrite launch_store.
  - destruct (tasks sys !! k); [|done].
    destruct (attempt rev rt (task_op t)); [| |done]; injection Hex as <-; simpl;
      (split; [by apply mapImage_fields | done]).
  - destruct (_ && _); [|done]. injection Hex as <-. done.
Qed.

(** Witness for X5: a batch run started on one photo. *)
Lemma processing_keeps_identity_witness :
  isProcessingEvent EvProcessImages = true
  /\ exec Plain EvProcessImages (Sample.after Plain (Sample.addPhoto Plain))
     = Some (Sample.after Plain (Sample.addPhoto Plain ++ [EvProcessImages]))
  /\ (fun img => (identity img, settings img))
       <$> images (store (Sample.after Plain (Sample.addPhoto Plain ++ [EvProcessImages])))
     = (fun img => (identity img, settings img))
         <$> images (store (Sample.after Plain (Sample.addPhoto Plain)))
  /\ globalSettings (store (Sample.after Plain (Sample.addPhoto Plain ++ [EvProcessImages])))
     = globalSettings (store (Sample.after Plain (Sample.addPhoto Plain))).
Proof.
  assert (H1 : isProcessingEvent EvProcessImages = true) by reflexivity.
  assert (H2 : exec Plain EvProcessImages (Sample.after Plain (Sample.addPhoto Plain))
               = Some (Sample.after Plain (Sample.addPhoto Plain ++ [EvProcessImages])))
    by (vm_compute; reflexivity).
  split; [exact H1|]. split; [exact H2|].
  exact (processing_keeps_identity_and_settings Plain _ _ _ H1 H2).
Defined.

(* ===================================================================== *)
(** ** Further properties: settings *)
(* ===================================================================== *)

Lemma mergeSettings_overlay s p1 p2 :
  mergeSettings (mergeSettings s p1) p2 = mergeSettings s (overlayPartial p1 p2).
Proof.
  destruct p1 as [a1 b1 c1 d1 e1 f1 g1], p2 as [a2 b2 c2 d2 e2 f2 g2].
  unfold mergeSettings, overlayPartial; simpl.
  by destruct a2, b2, c2, d2, e2, f2, g2.
Qed.

(** X6.  Two [updateSettings] calls on the same id amount to one call
    with the second partial object spread over the first; a call for an id
    no record carries changes nothing; and a call with an empty object
    still resets the record to idle and drops its result. *)
Theorem updateSettings_composes id p1 p2 st :
  updateSettings id p2 (updateSettings id p1 st)
  = updateSettings id (overlayPartial p1 p2) st
  /\ ((forall img, img ∈ images st -> img_id img <> id) ->
      updateSettings id p1 st = st)
  /\ (forall i img, images st !! i = Some img -> img_id img = id ->
        exists img',
          images (updateSettings id (mkPartial None None None None None None None) st)
            !! i = Some img'
          /\ settings img' = settings img /\ status img' = Idle /\ result img' = None)
  /\ (forall i img, images st !! i = Some img -> img_id img <> id ->
        images (updateSettings id p1 st) !! i = Some img).
Proof.
  split_and!.
  - unfold updateSettings, mapImage, mapImages; simpl. f_equal.
    rewrite <- list_fmap_compose. apply list_fmap_ext.
    intros i img _. simpl.
    destruct (bool_decide (img_id img = id)) eqn:E; simpl; rewrite E;
      [by rewrite mergeSettings_overlay | done].
  - apply mapImage_absent.
  - intros i img Hi Hid. unfold updateSettings.
    rewrite (mapImage_lookup _ _ _ _ _ Hi), bool_decide_eq_true_2 by done.
    eexists. split; [done|]. simpl. split; [by destruct (settings img) | done].
  - intros i img Hi Hid. unfold updateSettings.
    by rewrite (mapImage_lookup _ _ _ _ _ Hi), bool_decide_eq_false_2.
Qed.

(** X7.  In the resizing revision [applyGlobalSettings] wipes every
    per-record edit: applied after an [updateSettings] it gives the state
    it gives without it.  In the plain revision the same holds for an edit
    that leaves width and height alone. *)
Theorem applyGlobalSettings_wipes_edits rev id p st :
  (rev = Resizing \/ (p_width p = None /\ p_height p = None)) ->
  applyGlobalSettings rev (updateSettings id p st) = applyGlobalSettings rev st.
Proof.
  intros H. unfold applyGlobalSettings, updateSettings, mapImage, mapImages; simpl.
  f_equal. rewrite <- list_fmap_compose. apply list_fmap_ext.
  intros i img _. simpl. case_bool_decide; simpl; [|done].
  f_equal. unfold overwriteSettings. destruct H as [-> | [Hw Hh]]; [done|].
  destruct rev; [|done]. simpl. by rewrite Hw, Hh.
Qed.

(** Witness for X7: a format edit of the photo in the plain revision. *)
Lemma applyGlobalSettings_wipes_witness :
  (p_width (Sample.setFormat "image/jpeg") = None
   /\ p_height (Sample.setFormat "image/jpeg") = None)
  /\ applyGlobalSettings Plain
       (updateSettings "img_a" (Sample.setFormat "image/jpeg")
          (store (Sample.after Plain (Sample.addPhoto Plain))))
     = applyGlobalSettings Plain (store (Sample.after Plain (Sample.addPhoto Plain))).
Proof.
  assert (H : p_width (Sample.setFormat "image/jpeg") = None
              /\ p_height (Sample.setFormat "image/jpeg") = None)
    by (split; reflexivity).
  split; [exact H|].
  exact (applyGlobalSettings_wipes_edits Plain "img_a" (Sample.setFormat "image/jpeg")
           _ (or_intror H)).
Defined.


Lemma applyGlobalSettings_all_idle rev st :
  Forall (fun img => status img = Idle /\ result img = None)
         (images (applyGlobalSettings rev st)).
Proof. simpl. apply Forall_fmap, Forall_forall. done. Qed.

Lemma pendingImages_all imgs :
  Forall (fun img => status img <> Done) imgs -> pendingImages imgs = imgs.
Proof.
  intros H. unfold pendingImages. induction H as [|x l Hx _ IH]; [done|].
  rewrite filter_cons. case_decide; [by f_equal | done].
Qed.

(** X9.  A click on the start button of the control panel
    ([applyGlobalSettings(); processImages()]) launches one call for every
    record of the collection, done ones included, in the order of the
    collection; when the click handler returns, the flag is set and every
    record is processing, without a result, with the global settings
    written over its own, and with its id, file and preview URL as
    before. *)
Theorem start_click_processes_every_record rev sys :
  exists sys',
    run rev clickStart sys = Some sys'
    /\ isProcessing (store sys') = true
    /\ (exists ops,
          tasks sys' = tasks sys ++ (mkTask (Some (nextBatch sys)) <$> ops)
          /\ op_id <$> ops = img_id <$> images (store sys))
    /\ Forall (fun img => status img = Processing /\ result img = None)
              (images (store sys'))
    /\ settings <$> images (store sys')
       = (fun img => overwriteSettings rev (globalSettings (store sys)) (settings img))
           <$> images (store sys)
    /\ identity <$> images (store sys') = identity <$> images (store sys).
Proof.
  simpl.
  set (st0 := applyGlobalSettings rev (store sys)).
  destruct (processImagesHead st0) as [st ops] eqn:E.
  assert (Hst : st = fst (processImagesHead st0)) by (by rewrite E).
  assert (Hops : ops = snd (processImagesHead st0)) by (by rewrite E).
  assert (Hall : pendingImages (images st0) = images st0).
  { apply pendingImages_all. eapply Forall_impl; [apply applyGlobalSettings_all_idle|].
    intros img [-> _]. done. }
  eexists. split; [reflexivity|]. simpl. split_and!.
  - rewrite Hst. apply processImagesHead_flag.
  - exists ops. split; [done|].
    rewrite Hops, processImagesHead_ids, Hall. subst st0. simpl.
    rewrite <- list_fmap_compose. by apply list_fmap_ext.
  - rewrite Hst. unfold processImagesHead.
    apply Forall_lookup. intros i img' Hi.
    assert (Hlen : is_Some (images st0 !! i)).
    { apply lookup_lt_is_Some. apply lookup_lt_Some in Hi.
      assert (Hl : length (images (fst (launchAll (img_id <$> pendingImages (images st0))
                                         (setProcessing true st0))))
                   = length (images st0)).
      { rewrite <- (length_fmap img_id), (launchAll_fields img_id) by done.
        by rewrite length_fmap. }
      by rewrite <- Hl. }
    destruct Hlen as [img Himg].
    destruct (launchAll_lookup (img_id <$> pendingImages (images st0))
                (setProcessing true st0) i img Himg) as (img2 & Hl2 & _ & Hs2).
    rewrite Hi in Hl2. injection Hl2 as <-. split.
    + apply Hs2. left. rewrite Hall. apply list_elem_of_fmap. exists img.
      split; [done|]. by eapply list_elem_of_lookup_2.
    + assert (Hres : result <$> images (fst (launchAll (img_id <$> pendingImages (images st0))
                                              (setProcessing true st0)))
                     = result <$> images st0).
      { by rewrite launchAll_fields. }
      assert (Hr : (result <$> images st0) !! i = Some (result img)).
      { by rewrite list_lookup_fmap, Himg. }
      rewrite <- Hres, list_lookup_fmap, Hi in Hr. injection Hr as ->.
      pose proof (applyGlobalSettings_all_idle rev (store sys)) as Hidle.
      by apply (Forall_lookup_1 _ _ _ _ Hidle) in Himg as [_ ?].
  - rewrite Hst. unfold processImagesHead. rewrite launchAll_fields by done.
    subst st0. simpl. rewrite <- list_fmap_compose. by apply list_fmap_ext.
  - rewrite Hst. unfold processImagesHead. rewrite launchAll_fields by done.
    subst st0. simpl. rewrite <- list_fmap_compose. by apply list_fmap_ext.
Qed.

(* ===================================================================== *)
(** ** Further properties: the control panel and the page *)
(* ===================================================================== *)

Lemma guarded_unoverlapped ev sys :
  soloInvariant sys -> buttonGuard ev sys = true -> unoverlapped ev sys = true.
Proof.
  intros (Hflag & _ & _) Hg. destruct ev; try done. simpl in *.
  unfold startEnabled in Hg. apply negb_true_iff, orb_false_iff in Hg as [_ Hp].
  rewrite Hflag in Hp. apply bool_decide_eq_true.
  apply bool_decide_eq_false in Hp. by apply dec_stable.
Qed.

Lemma guarded_solo rev evs sys sys' :
  soloInvariant sys ->
  runGuarded rev evs sys = Some sys' -> runSolo rev evs sys = Some sys'.
Proof.
  revert sys. induction evs as [|ev rest IH]; intros sys Hinv Hrun; simpl in *; [done|].
  destruct (buttonGuard ev sys) eqn:Eg; [|done].
  rewrite (guarded_unoverlapped ev sys Hinv Eg).
  destruct (exec rev ev sys) as [sys1|] eqn:E; [|done].
  apply IH; [|done]. eapply solo_exec; eauto. by apply guarded_unoverlapped.
Qed.

(** X10.  When [processImages] is only ever called through the start
    button, which is disabled while the flag is set or the collection is
    empty, two batch runs never overlap: at most one batch is suspended at
    any time, the flag is set exactly while one is, and it is set as long
    as a call launched by a batch has not returned. *)
Theorem start_button_prevents_overlap rev evs sys :
  runGuarded rev evs (initialSys rev) = Some sys ->
  runSolo rev evs (initialSys rev) = Some sys
  /\ (length (awaited sys) <= 1)%nat
  /\ (isProcessing (store sys) = true <-> awaited sys <> [])
  /\ (forall t, t ∈ tasks sys -> is_Some (task_batch t) ->
        isProcessing (store sys) = true).
Proof.
  intros Hrun.
  pose proof (guarded_solo rev evs _ _ (solo_initial rev) Hrun) as Hsolo.
  destruct (solo_run _ _ _ _ Hsolo (solo_initial rev)) as (Hflag & Hlen & Hts).
  split; [done|]. split; [done|]. split.
  - rewrite Hflag. apply bool_decide_eq_true.
  - intros t Hin [b Hb]. rewrite Hflag. apply bool_decide_eq_true.
    intros Hnil. specialize (Hts t b Hin Hb). rewrite Hnil in Hts. inversion Hts.
Qed.

(** Witness for X10: one batch over two photos, started by the button. *)
Lemma start_button_witness :
  runGuarded Plain Sample.oneBatch (initialSys Plain)
    = Some (Sample.after Plain Sample.oneBatch)
  /\ runSolo Plain Sample.oneBatch (initialSys Plain)
     = Some (Sample.after Plain Sample.oneBatch)
  /\ (length (awaited (Sample.after Plain Sample.oneBatch)) <= 1)%nat.
Proof.
  assert (H : runGuarded Plain Sample.oneBatch (initialSys Plain)
              = Some (Sample.after Plain Sample.oneBatch))
    by (vm_compute; reflexivity).
  split; [exact H|].
  pose proof (start_button_prevents_overlap Plain _ _ H) as (H1 & H2 & _).
  split; [exact H1 | exact H2].
Defined.

Lemma hasDoneImages_spec st :
  hasDoneImages st = true <-> exists img, img ∈ images st /\ status img = Done.
Proof.
  unfold hasDoneImages. rewrite existsb_exists. split.
  - intros (img & Hin & Hs). exists img. apply list_elem_of_In in Hin.
    by apply bool_decide_eq_true in Hs.
  - intros (img & Hin & Hs). exists img. apply list_elem_of_In in Hin.
    split; [done|]. by apply bool_decide_eq_true.
Qed.

Lemma firstDoneImage_head st : firstDoneImage st = head (doneImages (images st)).
Proof.
  unfold firstDoneImage, doneImages. induction (images st) as [|x l IH]; [done|].
  simpl. rewrite filter_cons. case_bool_decide as E.
  - by rewrite decide_True.
  - by rewrite decide_False.
Qed.

Lemma exportImages_NoExport now st :
  exportImages now st = NoExport <-> doneImages (images st) = [].
Proof.
  unfold exportImages. destruct (doneImages (images st)) as [|x [|y l]] eqn:E.
  - done.
  - assert (Hx : x ∈ doneImages (images st)) by (rewrite E; by left).
    apply doneImages_result in Hx as [_ [r Hr]]. rewrite Hr. done.
  - done.
Qed.

(** X11.  In every state the registry can reach, the export button of the
    control panel is enabled exactly when [exportImages] would export
    something, and that is exactly when the page shows the comparison
    slider; the record it shows is the first done record of the
    collection. *)
Theorem export_button_matches_export rev now sys :
  reachable rev sys ->
  (exportEnabled (store sys) = true <-> exportImages now (store sys) <> NoExport)
  /\ (is_Some (firstDoneImage (store sys)) <-> exportEnabled (store sys) = true)
  /\ firstDoneImage (store sys) = head (doneImages (images (store sys))).
Proof.
  intros [evs Hrun].
  assert (Hkept : Forall keptInvariant (images (store sys))).
  { eapply kept_run; [exact Hrun|]. constructor. }
  assert (Hen : exportEnabled (store sys) = true
                <-> doneImages (images (store sys)) <> []).
  { unfold exportEnabled. rewrite negb_involutive, hasDoneImages_spec. split.
    - intros (img & Hin & Hs) Hnil.
      assert (Hd : img ∈ doneImages (images (store sys))).
      { unfold doneImages. apply list_elem_of_filter. split; [|done].
        split; [done|]. eapply Forall_forall in Hkept; [|exact Hin].
        by apply Hkept. }
      rewrite Hnil in Hd. inversion Hd.
    - intros Hne. destruct (doneImages (images (store sys))) as [|x l] eqn:E; [done|].
      assert (Hx : x ∈ doneImages (images (store sys))) by (rewrite E; by left).
      unfold doneImages in Hx. apply list_elem_of_filter in Hx as [[Hs _] Hin].
      eauto. }
  split_and!.
  - by rewrite Hen, exportImages_NoExport.
  - rewrite Hen, firstDoneImage_head.
    destruct (doneImages (images (store sys))); simpl; split; try done.
    all: first [by intros [? ?] | eauto].
  - apply firstDoneImage_head.
Qed.

(** Witness for X11: the registry after the photo was compressed. *)
Lemma export_button_witness :
  reachable Plain (Sample.after Plain Sample.compressOnly)
  /\ (exportEnabled (store (Sample.after Plain Sample.compressOnly)) = true
      <-> exportImages 0 (store (Sample.after Plain Sample.compressOnly)) <> NoExport)
  /\ exportEnabled (store (Sample.after Plain Sample.compressOnly)) = true.
Proof.
  assert (H : reachable Plain (Sample.after Plain Sample.compressOnly)) by run_events.
  split; [exact H|].
  split; [exact (proj1 (export_button_matches_export Plain 0 _ H))|].
  vm_compute. reflexivity.
Defined.

Lemma inject_Z_div_pos_lt a b :
  0 < b -> ((0 < 1 - inject_Z a / inject_Z b)%Q <-> a < b).
Proof.
  intros Hb.
  assert (Hb' : (0 < inject_Z b)%Q).
  { change 0%Q with (inject_Z 0). by rewrite <- Zlt_Qlt. }
  rewrite <- (Qlt_minus_iff (inject_Z a / inject_Z b) 1).
  rewrite Zlt_Qlt. split; intros H.
  - apply (Qmult_lt_r _ _ (inject_Z b) Hb') in H.
    rewrite Qmult_1_l in H. unfold Qdiv in H.
    rewrite <- Qmult_assoc, (Qmult_comm (/ _)), Qmult_inv_r, Qmult_1_r in H; [done|].
    intros E. rewrite E in Hb'. by apply Qlt_irrefl in Hb'.
  - apply (Qmult_lt_r _ _ (inject_Z b) Hb').
    rewrite Qmult_1_l. unfold Qdiv.
    rewrite <- Qmult_assoc, (Qmult_comm (/ _)), Qmult_inv_r, Qmult_1_r; [done|].
    intros E. rewrite E in Hb'. by apply Qlt_irrefl in Hb'.
Qed.

(* ===================================================================== *)
(** ** Further properties: invariants of the reachable states *)
(* ===================================================================== *)

(** Every stored result was built by [resultOf]. *)
Lemma built_exec rev ev sys sys' :
  exec rev ev sys = Some sys' ->
  Forall (fun img => forall r, result img = Some r ->
            exists image blob url, r = resultOf image blob url) (images (store sys)) ->
  Forall (fun img => forall r, result img = Some r ->
            exists image blob url, r = resultOf image blob url) (images (store sys')).
Proof.
  set (P := fun img => forall r, result img = Some r ->
                 exists image blob url, r = resultOf image blob url).
  assert (Hnew : forall g tok valid st,
             Forall P (images st) -> Forall P (images (appendImages rev g tok valid st))).
  { intros g tok valid st H. simpl. apply Forall_app. split; [done|].
    apply Forall_forall. intros img Hin.
    apply list_elem_of_lookup in Hin as [i Hi].
    rewrite list_lookup_imap in Hi.
    destruct (valid !! i); simpl in Hi; [|done].
    injection Hi as <-. by intros r. }
  intros Hex H. destruct ev; simpl in Hex.
  - destruct rev; injection Hex as <-; simpl; [|done]. by apply Hnew.
  - destruct (adds sys !! k); [|done]. injection Hex as <-.
    by apply (Hnew (add_settings p) tok (add_files p) (store sys)).
  - injection Hex as <-. simpl.
    apply Forall_forall. intros img Hin.
    apply list_elem_of_filter in Hin as [_ Hin].
    by eapply Forall_forall in H.
  - injection Hex as <-. simpl. apply (mapImage_Forall id); [|done].
    by intros img _ _ r.
  - injection Hex as <-. done.
  - injection Hex as <-. simpl. apply Forall_fmap, Forall_forall.
    by intros img _ r.
  - injection Hex as <-. simpl. constructor.
  - destruct (launch id (store sys)) as [st o] eqn:E. injection Hex as <-. simpl.
    replace st with (fst (launch id (store sys))) by (by rewrite E).
    rewrite launch_store. apply mapImage_Forall; [|done].
    intros img Himg _. exact Himg.
  - destruct (processImagesHead (store sys)) as [st ops] eqn:E.
    injection Hex as <-. simpl.
    replace st with (fst (processImagesHead (store sys))) by (by rewrite E).
    unfold processImagesHead. apply launchAll_store_Forall; [|done].
    intros img Himg. exact Himg.
  - destruct (tasks sys !! k); [|done].
    destruct (attempt rev rt (task_op t)) as [r0|e|] eqn:Ea; [| |done];
      injection Hex as <-; simpl.
    + apply (mapImage_Forall (op_id (task_op t))); [|done].
      intros img _ _ r [= <-].
      unfold attempt in Ea.
      destruct (snd (pipeline rev rt (task_op t))) as [blob| |]; [|done..].
      destruct rev.
      * injection Ea as <-. eauto.
      * destruct (readAsDataURL rt blob); [|done]. injection Ea as <-. eauto.
    + apply (mapImage_Forall (op_id (task_op t))); [|done].
      intros img Himg _. exact Himg.
  - destruct (bool_decide (b ∈ awaited sys) && batchSettled b (tasks sys)); [|done].
    injection Hex as <-. done.
Qed.

Lemma built_run rev evs sys sys' :
  run rev evs sys = Some sys' ->
  Forall (fun img => forall r, result img = Some r ->
            exists image blob url, r = resultOf image blob url) (images (store sys)) ->
  Forall (fun img => forall r, result img = Some r ->
            exists image blob url, r = resultOf image blob url) (images (store sys')).
Proof.
  revert sys. induction evs as [|ev rest IH]; intros sys Hrun H; simpl in Hrun.
  - by injection Hrun as <-.
  - destruct (exec rev ev sys) as [sys1|] eqn:E; [|done].
    eapply IH; [exact Hrun|]. by eapply built_exec.
Qed.

(** X12.  In every state the registry can reach, a stored result
    carries the size of its blob, and, when the original size it records
    is positive, its compression ratio is positive (the card's arrow
    points down) exactly when the result is smaller than the original. *)
Theorem stored_result_ratio_sign rev sys :
  reachable rev sys ->
  Forall (fun img => forall r, result img = Some r ->
            res_size r = blob_size (res_blob r)
            /\ (0 < originalSize r ->
                (isSmaller r = true <-> res_size r < originalSize r)))
         (images (store sys)).
Proof.
  intros [evs Hrun].
  assert (Hb : Forall (fun img => forall r, result img = Some r ->
                         exists image blob url, r = resultOf image blob url)
                      (images (store sys))).
  { eapply built_run; [exact Hrun|]. constructor. }
  eapply Forall_impl; [exact Hb|]. clear. intros img Himg r Hr.
  destruct (Himg r Hr) as (image & blob & url & ->). simpl. split; [done|].
  intros Hpos. unfold isSmaller, ratioOf; simpl.
  rewrite negb_true_iff, <- not_true_iff_false, Qle_bool_iff.
  rewrite <- (inject_Z_div_pos_lt _ _ Hpos). split.
  - intros H. by apply Qnot_le_lt.
  - intros H. by apply Qlt_not_le.
Qed.

(** Witness for X12: the photo compressed from 1000 to 300 bytes. *)
Lemma stored_result_ratio_witness :
  reachable Plain (Sample.after Plain Sample.compressOnly)
  /\ Forall (fun img => forall r, result img = Some r ->
               res_size r = blob_size (res_blob r)
               /\ (0 < originalSize r ->
                   (isSmaller r = true <-> res_size r < originalSize r)))
            (images (store (Sample.after Plain Sample.compressOnly)))
  /\ (fun img => (fun r => (res_size r, originalSize r, isSmaller r)) <$> result img)
       <$> images (store (Sample.after Plain Sample.compressOnly))
     = [Some (300, 1000, true)].
Proof.
  assert (H : reachable Plain (Sample.after Plain Sample.compressOnly)) by run_events.
  split; [exact H|].
  split; [exact (stored_result_ratio_sign Plain _ H)|].
  vm_compute. reflexivity.
Defined.

(** The ids of the calls in flight. *)
Lemma inflight_launch id st (fl : list string) :
  (forall img, img ∈ images st -> status img = Processing -> img_id img ∈ fl) ->
  forall img, img ∈ images (fst (launch id st)) -> status img = Processing ->
    img_id img ∈ fl ++ match snd (launch id st) with
                       | Some op => [op_id op]
                       | None => []
                       end.
Proof.
  intros H img Hin Hs. unfold launch in *.
  destruct (findImage id (images st)) as [image|] eqn:E; simpl in *.
  - apply list_elem_of_fmap in Hin as (x & -> & Hx).
    case_bool_decide as Hid.
    + apply elem_of_app. right. simpl. rewrite Hid. by left.
    + apply elem_of_app. left. by apply H.
  - rewrite app_nil_r. by apply H.
Qed.

Lemma inflight_launchAll ids st (fl : list string) :
  (forall img, img ∈ images st -> status img = Processing -> img_id img ∈ fl) ->
  forall img, img ∈ images (fst (launchAll ids st)) -> status img = Processing ->
    img_id img ∈ fl ++ (op_id <$> snd (launchAll ids st)).
Proof.
  revert st fl. induction ids as [|id rest IH]; intros st fl H img; simpl.
  - rewrite app_nil_r. by apply H.
  - pose proof (inflight_launch id st fl H) as H1.
    destruct (launch id st) as [st1 o]. simpl in H1.
    specialize (IH st1 _ H1 img).
    destruct (launchAll rest st1) as [st2 ops]. simpl in *.
    intros Hin Hs. specialize (IH Hin Hs).
    destruct o as [op|]; simpl in *; [|by rewrite app_nil_r in IH].
    by rewrite <- app_assoc in IH.
Qed.

Lemma elem_of_delete_other {A} (l : list A) k x y :
  x ∈ l -> l !! k = Some y -> x <> y -> x ∈ delete k l.
Proof.
  revert k. induction l as [|a l IH]; intros k Hin Hk Hne; [inversion Hin|].
  destruct k as [|k]; simpl in *.
  - injection Hk as ->. apply elem_of_cons in Hin as [?|?]; done.
  - apply elem_of_cons in Hin as [->|Hin]; [by left|]. right. by eapply IH.
Qed.

Lemma inflight_exec rev ev sys sys' :
  exec rev ev sys = Some sys' ->
  (forall img, img ∈ images (store sys) -> status img = Processing ->
     img_id img ∈ (fun t => op_id (task_op t)) <$> tasks sys) ->
  forall img, img ∈ images (store sys') -> status img = Processing ->
    img_id img ∈ (fun t => op_id (task_op t)) <$> tasks sys'.
Proof.
  assert (Hnew : forall g tok valid st img,
             img ∈ images (appendImages rev g tok valid st) ->
             status img = Processing -> img ∈ images st).
  { intros g tok valid st img Hin Hs. simpl in Hin.
    apply elem_of_app in Hin as [Hin|Hin]; [done|].
    apply list_elem_of_lookup in Hin as [i Hi].
    rewrite list_lookup_imap in Hi.
    destruct (valid !! i); simpl in Hi; [|done].
    injection Hi as <-. done. }
  intros Hex H img. destruct ev; simpl in Hex.
  - destruct rev; injection Hex as <-; simpl; [|by apply H].
    intros Hin Hs. apply H; [|done].
    exact (Hnew (globalSettings (store sys)) tok (validFiles files) (store sys) img Hin Hs).
  - destruct (adds sys !! k); [|done]. injection Hex as <-. simpl.
    intros Hin Hs. apply H; [|done].
    exact (Hnew (add_settings p) tok (add_files p) (store sys) img Hin Hs).
  - injection Hex as <-. simpl. intros Hin.
    apply list_elem_of_filter in Hin as [_ Hin]. by apply H.
  - injection Hex as <-. simpl. intros Hin Hs.
    apply list_elem_of_fmap in Hin as (x & -> & Hx).
    case_bool_decide; [done|]. by apply H.
  - injection Hex as <-. simpl. by apply H.
  - injection Hex as <-. simpl. intros Hin Hs.
    apply list_elem_of_fmap in Hin as (x & -> & Hx). done.
  - injection Hex as <-. simpl. intros Hin. by apply elem_of_nil in Hin.
  - pose proof (inflight_launch id (store sys) _ H img) as H1.
    destruct (launch id (store sys)) as [st o]. injection Hex as <-. simpl in *.
    intros Hin Hs. specialize (H1 Hin Hs). rewrite fmap_app.
    by destruct o.
  - pose proof (inflight_launchAll (img_id <$> pendingImages (images (store sys)))
                  (setProcessing true (store sys)) _ H img) as H1.
    unfold processImagesHead in Hex.
    destruct (launchAll _ _) as [st ops]. injection Hex as <-. simpl in *.
    intros Hin Hs. specialize (H1 Hin Hs). rewrite fmap_app, <- list_fmap_compose.
    done.
  - destruct (tasks sys !! k) as [t|] eqn:Ek; [|done].
    assert (Hkeep : forall (f : ImageConfig -> ImageConfig),
               (forall x, status (f x) <> Processing) ->
               img ∈ images (mapImage (op_id (task_op t)) f (store sys)) ->
               status img = Processing ->
               img_id img ∈ (fun t => op_id (task_op t)) <$> delete k (tasks sys)).
    { intros f Hf Hin Hs.
      apply list_elem_of_fmap in Hin as (x & -> & Hx).
      case_bool_decide as Hid; [by apply Hf in Hs|].
      specialize (H x Hx Hs).
      apply list_elem_of_fmap in H as (t' & Ht' & Hin').
      apply list_elem_of_fmap. exists t'. split; [done|].
      eapply elem_of_delete_other; [done..|]. intros ->. done. }
    destruct (attempt rev rt (task_op t)); [| |done]; injection Hex as <-; simpl;
      by apply Hkeep.
  - destruct (bool_decide (b ∈ awaited sys) && batchSettled b (tasks sys)); [|done].
    injection Hex as <-. simpl. by apply H.
Qed.

Lemma inflight_run rev evs sys sys' :
  run rev evs sys = Some sys' ->
  (forall img, img ∈ images (store sys) -> status img = Processing ->
     img_id img ∈ (fun t => op_id (task_op t)) <$> tasks sys) ->
  forall img, img ∈ images (store sys') -> status img = Processing ->
    img_id img ∈ (fun t => op_id (task_op t)) <$> tasks sys'.
Proof.
  revert sys. induction evs as [|ev rest IH]; intros sys Hrun H; simpl in Hrun.
  - by injection Hrun as <-.
  - destruct (exec rev ev sys) as [sys1|] eqn:E; [|done].
    eapply IH; [exact Hrun|]. by eapply inflight_exec.
Qed.

(** X13.  In every state the registry can reach, a record whose status
    is processing has a call of [processSingleImage] for its id in flight:
    no event leaves a record in processing without a call that will write
    its outcome. *)
Theorem processing_record_has_call_in_flight rev sys :
  reachable rev sys ->
  Forall (fun img => status img = Processing ->
            exists t, t ∈ tasks sys /\ op_id (task_op t) = img_id img)
         (images (store sys)).
Proof.
  intros [evs Hrun]. apply Forall_forall. intros img Hin Hs.
  assert (Hinv : img_id img ∈ (fun t => op_id (task_op t)) <$> tasks sys).
  { eapply inflight_run; [exact Hrun| |exact Hin|exact Hs].
    intros x Hx. by apply elem_of_nil in Hx. }
  apply list_elem_of_fmap in Hinv as (t & Ht & Hin'). eauto.
Qed.

(** Witness for X13: one batch over two photos, of which one has failed
    and the other is still processing. *)
Lemma processing_record_witness :
  reachable Plain (Sample.after Plain Sample.oneBatch)
  /\ Forall (fun img => status img = Processing ->
               exists t, t ∈ tasks (Sample.after Plain Sample.oneBatch)
                         /\ op_id (task_op t) = img_id img)
            (images (store (Sample.after Plain Sample.oneBatch)))
  /\ status <$> images (store (Sample.after Plain Sample.oneBatch))
     = [Processing; Error].
Proof.
  assert (H : reachable Plain (Sample.after Plain Sample.oneBatch)) by run_events.
  split; [exact H|].
  split; [exact (processing_record_has_call_in_flight Plain _ H)|].
  vm_compute. reflexivity.
Defined.

(* ===================================================================== *)
(** ** Further properties: the dimension planner *)
(* ===================================================================== *)

Section PlannerMore.
Import ResizingEngine.

Lemma round_comp x y : (x == y)%Q -> round x = round y.
Proof. intros H. unfold round. apply Qfloor_comp. by rewrite H. Qed.











(** X17.  The policies that ask for nothing change nothing: mode scale
    with factor 1, with factor 0 or without a factor, and mode custom with
    neither side given, plan the original size, whatever the other
    fields. *)
Theorem neutral_policies_keep_size w h cw ch lock :
  calculateResizedDimensions w h (mkResize (Some ResizeScale) (Some 1%Q) cw ch lock)
  = (w, h)
  /\ calculateResizedDimensions w h (mkResize (Some ResizeScale) (Some 0%Q) cw ch lock)
     = (w, h)
  /\ calculateResizedDimensions w h (mkResize (Some ResizeScale) None cw ch lock)
     = (w, h)
  /\ (forall s, calculateResizedDimensions w h
                  (mkResize (Some ResizeCustom) s None None lock) = (w, h))
  /\ (forall s, calculateResizedDimensions w h
                  (mkResize (Some ResizeCustom) s (Some 0) (Some 0) lock) = (w, h)).
Proof.
  split_and!; try done.
  - unfold calculateResizedDimensions; simpl. f_equal.
    + rewrite (round_comp _ (inject_Z w)); [apply round_Z | ring].
    + rewrite (round_comp _ (inject_Z h)); [apply round_Z | ring].
  - intros s. unfold calculateResizedDimensions; simpl.
    by destruct (truthyQ s), lock.
  - intros s. unfold calculateResizedDimensions; simpl.
    by destruct (truthyQ s), lock.
Qed.
End PlannerMore.

(* ===================================================================== *)
(** ** Further properties: the engines and the mode dispatch *)
(* ===================================================================== *)

(** X18.  [convertImage] of the resizing revision always settles, after
    at most one probe and at most two encodes of the image; a format other
    than AVIF is never probed and is asked for as it is, with PNG as the
    only other format; and a run that resolves hands back the blob of its
    last encode, which is not empty unless it comes from the PNG retry. *)
Theorem resizing_convertImage_settles_in_three_calls rt f fmt flag ro :
  let r := ResizingEngine.convertImage rt f fmt flag ro in
  snd r <> Pending
  /\ (length (imageRequests r) <= 2)%nat
  /\ (length (fst r) <= length (imageRequests r) + 1)%nat
  /\ (fmt <> "image/avif" ->
      imageRequests r = fst r
      /\ forall q, q ∈ fst r -> req_format q = fmt \/ req_format q = "image/png")
  /\ (forall b, snd r = Resolved b ->
      exists q, last (fst r) = Some q
                /\ req_source q = Some (file_data f)
                /\ toBlob rt q = Some b
                /\ (0 < blob_size b \/ req_format q = "image/png")).
Proof.
  unfold imageRequests, ResizingEngine.convertImage, ResizingEngine.checkFormatSupport,
    ResizingEngine.getFallbackFormat.
  case_bool_decide as Hfmt; simpl.
  - set (ok := match toBlob rt ResizingEngine.probeReq with
               | Some blob => 0 <? blob_size blob | None => false end).
    set (target := if ok then fmt else "image/webp").
    destruct (loadImage rt f) as [w h| |]; simpl;
      [|by split_and!; try done; lia..].
    destruct (ResizingEngine.planDimensions w h ro) as [fw fh].
    destruct (getContext2d rt fw fh); simpl; [|by split_and!; try done; lia].
    destruct (drawImage rt f fw fh); simpl; [by split_and!; try done; lia|].
    destruct (toBlob rt (mkReq fw fh _ target _)) as [blob|] eqn:E1;
      [destruct (0 <? blob_size blob) eqn:Epos|]; simpl.
    + split_and!; try done; try lia.
      intros b [= <-]. eexists. split_and!; [done..|]. left. by apply Z.ltb_lt.
    + destruct (toBlob rt (mkReq fw fh _ "image/png" _)) as [png|] eqn:E2;
        split_and!; try done; try (simpl; lia).
      intros b [= <-]. eexists. split_and!; [done..|]. by right.
    + destruct (toBlob rt (mkReq fw fh _ "image/png" _)) as [png|] eqn:E2;
        split_and!; try done; try (simpl; lia).
      intros b [= <-]. eexists. split_and!; [done..|]. by right.
  - assert (Hin : forall a b q : EncodeReq,
               req_format a = fmt -> req_format b = "image/png" ->
               q ∈ [a; b] -> req_format q = fmt \/ req_format q = "image/png").
    { intros a b q Ha Hb Hq. apply elem_of_cons in Hq as [->|Hq]; [by left|].
      apply list_elem_of_singleton in Hq as ->. by right. }
    destruct (loadImage rt f) as [w h| |]; simpl;
      [|by split_and!; try done; try lia; intros _; split; [done|inversion 1]..].
    destruct (ResizingEngine.planDimensions w h ro) as [fw fh].
    destruct (getContext2d rt fw fh); simpl;
      [|by split_and!; try done; try lia; intros _; split; [done|inversion 1]].
    destruct (drawImage rt f fw fh); simpl;
      [by split_and!; try done; try lia; intros _; split; [done|inversion 1]|].
    destruct (toBlob rt (mkReq fw fh _ fmt _)) as [blob|] eqn:E1;
      [destruct (0 <? blob_size blob) eqn:Epos|]; simpl.
    + split_and!; try done; try lia.
      * intros _. split; [done|]. intros q Hq.
        apply list_elem_of_singleton in Hq as ->. by left.
      * intros b [= <-]. eexists. split_and!; [done..|]. left. by apply Z.ltb_lt.
    + destruct (toBlob rt (mkReq fw fh _ "image/png" _)) as [png|] eqn:E2;
        split_and!; try done; try (simpl; lia);
        try (intros _; split; [done|]; intros q; by apply Hin).
      intros b [= <-]. eexists. split_and!; [done..|]. by right.
    + destruct (toBlob rt (mkReq fw fh _ "image/png" _)) as [png|] eqn:E2;
        split_and!; try done; try (simpl; lia);
        try (intros _; split; [done|]; intros q; by apply Hin).
      intros b [= <-]. eexists. split_and!; [done..|]. by right.
Qed.

Lemma resizing_convertImage_not_pending rt f fmt flag ro :
  snd (ResizingEngine.convertImage rt f fmt flag ro) <> Pending.
Proof.
  unfold ResizingEngine.convertImage.
  destruct (ResizingEngine.checkFormatSupport rt fmt) as [probes ok].
  destruct (loadImage rt f) as [w h| |]; simpl; [|done..].
  destruct (ResizingEngine.planDimensions w h ro) as [fw fh].
  destruct (getContext2d rt fw fh); simpl; [|done].
  destruct (drawImage rt f fw fh); simpl; [done|].
  destruct (toBlob rt (mkReq fw fh _ _ _)) as [blob|];
    [destruct (0 <? blob_size blob)|]; simpl; try done;
    by destruct (toBlob rt _).
Qed.

Lemma andThen_not_pending r k :
  snd r <> Pending -> (forall b, k b <> Pending) -> snd (andThen r k) <> Pending.
Proof. destruct r as [reqs [b|e|]]; simpl; auto. Qed.

Lemma compressBlob_not_pending rt b : compressBlob rt b <> Pending.
Proof. unfold compressBlob, compressImage. by destruct (imageCompression rt _). Qed.

Lemma resizing_attempt_not_pending rt op : attempt Resizing rt op <> Pending.
Proof.
  unfold attempt.
  assert (H : snd (pipeline Resizing rt op) <> Pending).
  { unfold pipeline. destruct (mode (settings (op_image op))).
    - apply resizing_convertImage_not_pending.
    - apply andThen_not_pending; [apply resizing_convertImage_not_pending|].
      apply compressBlob_not_pending.
    - apply andThen_not_pending; [apply resizing_convertImage_not_pending|].
      intros b. destruct (enableCompression _); [apply compressBlob_not_pending | done]. }
  destruct (snd (pipeline Resizing rt op)); [|done..].
  by destruct (readAsDataURL rt _).
Qed.

Lemma plain_convertImage_pending rt f fmt flag :
  snd (PlainEngine.convertImage rt f fmt flag) = Pending
  <-> loadImage rt f = LoadStalled
      \/ exists w h e, loadImage rt f = Loaded w h
           /\ getContext2d rt w h = true /\ drawImage rt f w h = Some e.
Proof.
  unfold PlainEngine.convertImage.
  destruct (loadImage rt f) as [w h| |] eqn:El; simpl.
  - destruct (getContext2d rt w h) eqn:Ec; simpl.
    + destruct (drawImage rt f w h) as [e|] eqn:Ed; simpl.
      * split; [|done]. intros _. right. exists w, h, e. done.
      * split.
        -- by destruct (toBlob rt _).
        -- intros [?|(w' & h' & e & [= <- <-] & _ & He)]; [done|congruence].
    + split; [done|].
      intros [?|(w' & h' & e & [= <- <-] & Hc & _)]; [done|congruence].
  - split; [done|]. intros [?|(w' & h' & e & ? & _)]; done.
  - split; [by left|done].
Qed.

(** X19.  A call of [processSingleImage] of the resizing revision always
    returns, leaving every record of that id done or in error; the plain
    revision's call never returns (the record stays in processing) exactly
    when the record exists, its mode is not compress, and the image never
    loads or drawing it throws. *)
Theorem processSingleImage_returns_unless_decode_hangs rt id st :
  (exists st', processSingleImage Resizing rt id st = Some st'
     /\ forall img, img ∈ images st' -> img_id img = id ->
          status img = Done \/ status img = Error)
  /\ (processSingleImage Plain rt id st = None <->
      exists img, findImage id (images st) = Some img
        /\ mode (settings img) <> Compress
        /\ (loadImage rt (img_file img) = LoadStalled
            \/ exists w h e, loadImage rt (img_file img) = Loaded w h
                 /\ getContext2d rt w h = true
                 /\ drawImage rt (img_file img) w h = Some e)).
Proof.
  split.
  - unfold processSingleImage.
    destruct (launch id st) as [st1 o] eqn:E.
    destruct o as [op|].
    + assert (Hset : forall f : ImageConfig -> ImageConfig,
                 (forall x, img_id (f x) = img_id x) ->
                 (forall x, status (f x) = Done \/ status (f x) = Error) ->
                 forall img, img ∈ images (mapImage id f st1) -> img_id img = id ->
                   status img = Done \/ status img = Error).
      { intros f Hid Hst img Hin Himg. unfold mapImage, mapImages in Hin. simpl in Hin.
        apply list_elem_of_fmap in Hin as (x & -> & _).
        case_bool_decide as Hx; [apply Hst | done]. }
      pose proof (resizing_attempt_not_pending rt op) as Hnp.
      destruct (attempt Resizing rt op) as [r|e|]; [| |done].
      * eexists. split; [done|]. apply Hset; [done|by left].
      * eexists. split; [done|]. apply Hset; [done|by right].
    + exists st1. split; [done|]. intros img Hin Hid.
      unfold launch in E. destruct (findImage id (images st)) eqn:Ef; [done|].
      injection E as <-. exfalso. eapply findImage_None; eauto.
  - unfold processSingleImage, launch.
    destruct (findImage id (images st)) as [image|] eqn:Ef; simpl.
    + unfold attempt, pipeline. simpl.
      destruct (mode (settings image)) eqn:Em; simpl.
      * pose proof (plain_convertImage_pending rt (img_file image)
                      (format (settings image)) false) as Hp.
        destruct (snd (PlainEngine.convertImage rt (img_file image) _ false)) eqn:Es.
        -- split; [done|]. intros (img & [= <-] & _ & H). discriminate (proj2 Hp H).
        -- split; [done|]. intros (img & [= <-] & _ & H). discriminate (proj2 Hp H).
        -- split; [|done]. intros _. exists image. split; [done|]. split; [by rewrite Em|].
           by apply Hp.
      * split.
        -- unfold compressImage. by destruct (imageCompression rt _).
        -- intros (img & [= <-] & Hm & _). done.
      * pose proof (plain_convertImage_pending rt (img_file image)
                      (format (settings image)) (enableCompression (settings image))) as Hp.
        destruct (PlainEngine.convertImage rt (img_file image) _ _) as [reqs [b|e|]];
          simpl in *.
        -- split; [|intros (img & [= <-] & _ & H); discriminate (proj2 Hp H)].
           destruct (enableCompression _); [|done].
           unfold compressBlob, compressImage. by destruct (imageCompression rt _).
        -- split; [done|]. intros (img & [= <-] & _ & H). discriminate (proj2 Hp H).
        -- split; [|done]. intros _. exists image. split; [done|]. split; [by rewrite Em|].
           by apply Hp.
    + split; [done|]. intros (img & ? & _). done.
Qed.

(** X20.  The compression library is consulted only in mode compress and
    in mode both with the flag set: in mode convert, and in mode both with
    the flag off, the whole run is the same whatever the library would
    answer; the encoder calls never depend on it; and where it is
    consulted, a resolved run's blob is the library's answer, for the
    original file (plain revision, mode compress) or for a file named
    image.png that wraps the blob the encoder produced. *)
Theorem compression_library_consulted_only_when_asked rev rt op :
  let s := settings (op_image op) in
  (forall c, fst (pipeline rev (withCompression rt c) op) = fst (pipeline rev rt op))
  /\ (mode s = Convert \/ (mode s = Both /\ enableCompression s = false) ->
      forall c, pipeline rev (withCompression rt c) op = pipeline rev rt op)
  /\ (mode s = Compress \/ (mode s = Both /\ enableCompression s = true) ->
      forall b, snd (pipeline rev rt op) = Resolved b ->
        exists f, imageCompression rt f = inr b
          /\ (f = img_file (op_image op) /\ rev = Plain /\ mode s = Compress
              \/ exists converted q,
                   f = fileOfBlob converted
                   /\ q ∈ fst (pipeline rev rt op)
                   /\ toBlob rt q = Some converted)).
Proof.
  simpl.
  assert (HP : forall c f fmt flag,
             PlainEngine.convertImage (withCompression rt c) f fmt flag
             = PlainEngine.convertImage rt f fmt flag) by done.
  assert (HR : forall c f fmt flag ro,
             ResizingEngine.convertImage (withCompression rt c) f fmt flag ro
             = ResizingEngine.convertImage rt f fmt flag ro) by done.
  assert (HPb : forall f fmt flag b,
             snd (PlainEngine.convertImage rt f fmt flag) = Resolved b ->
             exists q, q ∈ fst (PlainEngine.convertImage rt f fmt flag)
                       /\ toBlob rt q = Some b).
  { intros f fmt flag b. unfold PlainEngine.convertImage.
    destruct (loadImage rt f) as [w h| |]; simpl; [|done..].
    destruct (getContext2d rt w h); simpl; [|done].
    destruct (drawImage rt f w h); simpl; [done|].
    destruct (toBlob rt _) as [blob|] eqn:E; [|done].
    intros [= <-]. eexists. split; [by left | done]. }
  assert (HRb : forall f fmt flag ro b,
             snd (ResizingEngine.convertImage rt f fmt flag ro) = Resolved b ->
             exists q, q ∈ fst (ResizingEngine.convertImage rt f fmt flag ro)
                       /\ toBlob rt q = Some b).
  { intros f fmt flag ro b. unfold ResizingEngine.convertImage.
    destruct (ResizingEngine.checkFormatSupport rt fmt) as [probes ok].
    destruct (loadImage rt f) as [w h| |]; simpl; [|done..].
    destruct (ResizingEngine.planDimensions w h ro) as [fw fh].
    destruct (getContext2d rt fw fh); simpl; [|done].
    destruct (drawImage rt f fw fh); simpl; [done|].
    destruct (toBlob rt (mkReq fw fh _ _ _)) as [blob|] eqn:E1;
      [destruct (0 <? blob_size blob)|]; simpl.
    - intros [= <-]. eexists. split; [|exact E1]. set_solver.
    - destruct (toBlob rt (mkReq fw fh _ "image/png" _)) as [png|] eqn:E2; [|done].
      intros [= <-]. eexists. split; [|exact E2]. set_solver.
    - destruct (toBlob rt (mkReq fw fh _ "image/png" _)) as [png|] eqn:E2; [|done].
      intros [= <-]. eexists. split; [|exact E2]. set_solver. }
  assert (Hthen : forall (r : Run) b,
             snd (andThen r (fun x => compressBlob rt x)) = Resolved b ->
             exists converted, snd r = Resolved converted
               /\ imageCompression rt (fileOfBlob converted) = inr b).
  { intros [reqs [x|e|]] b; simpl; [|done..].
    unfold compressBlob, compressImage.
    destruct (imageCompression rt (fileOfBlob x)) eqn:E; [done|].
    intros [= <-]. eauto. }
  split_and!.
  - intros c. unfold pipeline.
    destruct rev, (mode (settings (op_image op))); simpl;
      rewrite ?andThen_requests, ?HP, ?HR; done.
  - intros Hm c. unfold pipeline.
    destruct Hm as [-> | [-> ->]]; destruct rev; simpl; by rewrite ?HP, ?HR.
  - intros Hm b. unfold pipeline.
    destruct Hm as [-> | [-> ->]]; destruct rev; simpl.
    + unfold compressImage.
      destruct (imageCompression rt (img_file (op_image op))) eqn:E; [done|].
      intros [= <-]. eexists. split; [exact E|]. by left.
    + intros H. apply Hthen in H as (x & Hx & Hc).
      apply HRb in Hx as (q & Hq & Hb).
      eexists. split; [exact Hc|]. right. exists x, q.
      by rewrite andThen_requests.
    + intros H. apply Hthen in H as (x & Hx & Hc).
      apply HPb in Hx as (q & Hq & Hb).
      eexists. split; [exact Hc|]. right. exists x, q.
      by rewrite andThen_requests.
    + intros H. apply Hthen in H as (x & Hx & Hc).
      apply HRb in Hx as (q & Hq & Hb).
      eexists. split; [exact Hc|]. right. exists x, q.
      by rewrite andThen_requests.
Qed.

(* ===================================================================== *)
(** ** Further properties: the worker and its hook *)
(* ===================================================================== *)

(** X21.  The worker answers every message with progress messages
    followed by exactly one verdict, all carrying the message's id: the
    progress values are an initial part of 10, 30, 50, 70, 90; a success
    comes after all five, with the encoder's blob and that blob's size;
    an error comes before the 90. *)
Theorem worker_posts_progress_then_one_verdict wrt m :
  exists ps t,
    snd (Worker.onmessage wrt m) = (Worker.Progress (Worker.msg_id m) <$> ps) ++ [t]
    /\ ps `prefix_of` [10; 30; 50; 70; 90] /\ ps <> []
    /\ match t with
       | Worker.Success id blob size =>
           id = Worker.msg_id m /\ size = blob_size blob
           /\ ps = [10; 30; 50; 70; 90]
           /\ exists req, fst (Worker.onmessage wrt m) = [req]
                          /\ convertToBlob wrt req = inr blob
       | Worker.Failure id e =>
           id = Worker.msg_id m /\ (length ps <= 4)%nat
       | Worker.Progress _ _ => False
       end.
Proof.
  unfold Worker.onmessage.
  destruct (createImageBitmap wrt _ _) as [e|[w h]]; simpl.
  { exists [10], (Worker.Failure (Worker.msg_id m) (Worker.errorText e)).
    split_and!; first [done | by eexists | simpl; lia]. }
  destruct (offscreenContext2d wrt w h); simpl.
  2: { exists [10; 30], (Worker.Failure (Worker.msg_id m) "无法创建 Canvas 上下文").
       split_and!; first [done | by eexists | simpl; lia]. }
  destruct (Worker.outputPolicy _ _ _ _) as [fmt q].
  destruct (convertToBlob wrt _) as [e|blob] eqn:E; simpl.
  - exists [10; 30; 50; 70], (Worker.Failure (Worker.msg_id m) (Worker.errorText e)).
    split_and!; first [done | by eexists | simpl; lia].
  - exists [10; 30; 50; 70; 90],
      (Worker.Success (Worker.msg_id m) blob (blob_size blob)).
    split_and!; try done. eauto.
Qed.

Section DispatcherFacts.
Import Dispatcher.

Lemma deliverAll_cons r rest h :
  deliverAll (r :: rest) h
  = (fst (deliverAll rest (fst (onWorkerMessage r h))),
     snd (onWorkerMessage r h) ++ snd (deliverAll rest (fst (onWorkerMessage r h)))).
Proof.
  change (deliverAll (r :: rest) h)
    with (let '(h1, e1) := onWorkerMessage r h in
          let '(h2, e2) := deliverAll rest h1 in (h2, e1 ++ e2)).
  destruct (onWorkerMessage r h) as [h1 e1]. simpl.
  by destruct (deliverAll rest h1).
Qed.

Lemma deliverAll_app rs1 rs2 h :
  deliverAll (rs1 ++ rs2) h
  = (fst (deliverAll rs2 (fst (deliverAll rs1 h))),
     snd (deliverAll rs1 h) ++ snd (deliverAll rs2 (fst (deliverAll rs1 h)))).
Proof.
  revert h. induction rs1 as [|r rest IH]; intros h.
  - simpl. by destruct (deliverAll rs2 h).
  - rewrite <- app_comm_cons, !deliverAll_cons, IH. simpl. by rewrite app_assoc.
Qed.

Lemma onWorkerMessage_progress h id cb p :
  callbacks h !! id = Some cb ->
  onWorkerMessage (ofWorker (Worker.Progress id p)) h
  = (h, if cb_onProgress cb then [OnProgress (cb_promise cb) p] else []).
Proof. intros Hcb. unfold onWorkerMessage, runCallback. simpl. by rewrite Hcb. Qed.

Lemma deliverAll_progress h id cb ps :
  callbacks h !! id = Some cb ->
  deliverAll (ofWorker <$> (Worker.Progress id <$> ps)) h
  = (h, if cb_onProgress cb then OnProgress (cb_promise cb) <$> ps else []).
Proof.
  intros Hcb. induction ps as [|p rest IH].
  - simpl. by destruct (cb_onProgress cb).
  - rewrite !fmap_cons, deliverAll_cons, (onWorkerMessage_progress h id cb p Hcb).
    simpl fst. simpl snd. rewrite IH. simpl. by destruct (cb_onProgress cb).
Qed.

(** A promise no stored callback holds gets nothing from the worker's
    messages. *)
Lemma deliverAll_unknown_promise rs h k :
  (forall i cb, callbacks h !! i = Some cb -> cb_promise cb <> k) ->
  forall e, e ∈ snd (deliverAll rs h) -> effectPromise e <> Some k.
Proof.
  revert h. induction rs as [|r rest IH]; intros h Hk e; simpl; [by inversion 1|].
  destruct (onWorkerMessage r h) as [h1 e1] eqn:E1.
  destruct (deliverAll rest h1) as [h2 e2] eqn:E2. simpl.
  intros Hin. apply elem_of_app in Hin as [Hin|Hin].
  - unfold onWorkerMessage in E1.
    destruct (callbacks h !! r_id r) as [cb|] eqn:Ecb.
    + injection E1 as <- <-. specialize (Hk _ _ Ecb).
      unfold runCallback in Hin.
      destruct (r_type r); [destruct (r_result r) as [[b s]|] | |
                            destruct (cb_onProgress cb)];
        try (by inversion Hin);
        apply list_elem_of_singleton in Hin as ->; simpl; congruence.
    + injection E1 as <- <-. inversion Hin.
  - specialize (IH h1). rewrite E2 in IH. simpl in IH. apply IH; [|done].
    intros i cb Hi. apply (Hk i cb).
    unfold onWorkerMessage in E1.
    destruct (callbacks h !! r_id r) as [cb0|]; [|by injection E1 as <- <-].
    injection E1 as <- _.
    destruct (r_type r); simpl in Hi; try done;
      by apply lookup_delete_Some in Hi as [_ ?].
Qed.

Lemma onWorkerMessage_success h id cb blob size :
  callbacks h !! id = Some cb ->
  onWorkerMessage (ofWorker (Worker.Success id blob size)) h
  = ({| workerAlive := workerAlive h; callbacks := delete id (callbacks h) |},
     [Resolve (cb_promise cb) blob size]).
Proof. intros Hcb. unfold onWorkerMessage, runCallback. simpl. by rewrite Hcb. Qed.

Lemma onWorkerMessage_failure h id cb e :
  callbacks h !! id = Some cb ->
  onWorkerMessage (ofWorker (Worker.Failure id e)) h
  = ({| workerAlive := workerAlive h; callbacks := delete id (callbacks h) |},
     [Reject (cb_promise cb) (if bool_decide (e = "") then "处理失败" else e)]).
Proof. intros Hcb. unfold onWorkerMessage, runCallback. simpl. by rewrite Hcb. Qed.

(** The messages of one worker run, delivered to a hook that holds the
    callback of their id. *)
Lemma deliver_worker_run wrt msg h cb :
  callbacks h !! Worker.msg_id msg = Some cb ->
  exists ps v,
    deliverAll (ofWorker <$> snd (Worker.onmessage wrt msg)) h
    = ({| workerAlive := workerAlive h;
          callbacks := delete (Worker.msg_id msg) (callbacks h) |},
       (OnProgress (cb_promise cb) <$> ps) ++ [v])
    /\ settles v = true /\ effectPromise v = Some (cb_promise cb)
    /\ (if cb_onProgress cb then ps <> [] else ps = [])
    /\ (forall blob size,
          v = Resolve (cb_promise cb) blob size
          <-> Worker.Success (Worker.msg_id msg) blob size
              ∈ snd (Worker.onmessage wrt msg))
    /\ (forall e, v = Reject (cb_promise cb) e -> e <> "").
Proof.
  intros Hcb. set (id := Worker.msg_id msg) in *.
  assert (Hone : forall ps t,
             deliverAll (ofWorker <$> ((Worker.Progress id <$> ps) ++ [t])) h
             = (fst (onWorkerMessage (ofWorker t) h),
                (if cb_onProgress cb then OnProgress (cb_promise cb) <$> ps else [])
                ++ snd (onWorkerMessage (ofWorker t) h))).
  { intros ps t. rewrite fmap_app, deliverAll_app.
    rewrite (deliverAll_progress h id cb ps Hcb).
    change (ofWorker <$> [t]) with [ofWorker t]. rewrite deliverAll_cons.
    simpl. by rewrite app_nil_r. }
  assert (Hfail : forall e, (if bool_decide (Worker.errorText e = "") then "处理失败"
                             else Worker.errorText e) <> "").
  { intros e. case_bool_decide; done. }
  unfold Worker.onmessage. fold id.
  destruct (createImageBitmap wrt _ _) as [e|[w h']].
  { exists (if cb_onProgress cb then [10] else []), (Reject (cb_promise cb)
         (if bool_decide (Worker.errorText e = "") then "处理失败" else Worker.errorText e)).
    split.
    { etrans; [exact (Hone [10] (Worker.Failure id (Worker.errorText e)))|].
      rewrite (onWorkerMessage_failure h id cb _ Hcb). simpl.
      by destruct (cb_onProgress cb). }
    split_and!; try done.
    - by destruct (cb_onProgress cb).
    - intros blob size. split; [done|]. simpl. intros Hin.
      repeat (apply elem_of_cons in Hin as [Hin|Hin]; [done|]). inversion Hin.
    - intros e' [= <-]. apply Hfail. }
  destruct (offscreenContext2d wrt w h').
  2: { exists (if cb_onProgress cb then [10; 30] else []),
         (Reject (cb_promise cb) "无法创建 Canvas 上下文").
       split.
       { etrans; [exact (Hone [10; 30] (Worker.Failure id "无法创建 Canvas 上下文"))|].
         rewrite (onWorkerMessage_failure h id cb _ Hcb). simpl.
         by destruct (cb_onProgress cb). }
       split_and!; try done.
       - by destruct (cb_onProgress cb).
       - intros blob size. split; [done|]. simpl. intros Hin.
         repeat (apply elem_of_cons in Hin as [Hin|Hin]; [done|]). inversion Hin.
       - by intros e' [= <-]. }
  simpl negb. cbv iota.
  destruct (Worker.outputPolicy _ _ _ _) as [ofmt q].
  destruct (convertToBlob wrt _) as [e|blob] eqn:E.
  - exists (if cb_onProgress cb then [10; 30; 50; 70] else []), (Reject (cb_promise cb)
         (if bool_decide (Worker.errorText e = "") then "处理失败" else Worker.errorText e)).
    split.
    { etrans; [exact (Hone [10; 30; 50; 70] (Worker.Failure id (Worker.errorText e)))|].
      rewrite (onWorkerMessage_failure h id cb _ Hcb). simpl.
      by destruct (cb_onProgress cb). }
    split_and!; try done.
    + by destruct (cb_onProgress cb).
    + intros blob size. split; [done|]. simpl. intros Hin.
      repeat (apply elem_of_cons in Hin as [Hin|Hin]; [done|]). inversion Hin.
    + intros e' [= <-]. apply Hfail.
  - exists (if cb_onProgress cb then [10; 30; 50; 70; 90] else []),
      (Resolve (cb_promise cb) blob (blob_size blob)).
    split.
    { etrans; [exact (Hone [10; 30; 50; 70; 90]
                         (Worker.Success id blob (blob_size blob)))|].
      rewrite (onWorkerMessage_success h id cb _ _ Hcb). simpl.
      by destruct (cb_onProgress cb). }
    split_and!; try done.
    + by destruct (cb_onProgress cb).
    + intros blob' size. simpl. split.
      * intros [= <- <-]. set_solver.
      * intros Hin.
        repeat (apply elem_of_cons in Hin as [Hin|Hin]; [done|]).
        apply elem_of_cons in Hin as [[= <- <-]|Hin]; [done|]. inversion Hin.
Qed.

(** X22.  A call of [processImage] on a live hook posts one message to
    the worker, and the worker's answers to it settle the call's promise
    exactly once, as the last effect: progress calls come first (none
    without a progress callback), the promise resolves with the worker's
    blob and size exactly when the worker posted a success, a rejection
    never carries an empty message, and the callback is gone from the map
    afterwards. *)
Theorem worker_round_trip_settles_once wrt h k id f fmt m flag onProgress :
  workerAlive h = true ->
  let msg := Worker.mkMessage m id (file_data f) (file_type f) fmt flag in
  exists h1 h2 ps v,
    processImage k id f fmt m flag onProgress true h = (h1, [PostMessage msg])
    /\ deliverAll (ofWorker <$> snd (Worker.onmessage wrt msg)) h1
       = (h2, (OnProgress k <$> ps) ++ [v])
    /\ callbacks h2 = delete id (callbacks h)
    /\ workerAlive h2 = true
    /\ settles v = true /\ effectPromise v = Some k
    /\ (if onProgress then ps <> [] else ps = [])
    /\ (forall blob size,
          v = Resolve k blob size
          <-> Worker.Success id blob size ∈ snd (Worker.onmessage wrt msg))
    /\ (forall e, v = Reject k e -> e <> "").
Proof.
  intros Halive msg.
  unfold processImage, onReaderLoad. rewrite Halive. simpl negb. cbv iota. fold msg.
  set (h1 := {| workerAlive := true;
                callbacks := <[id:=mkCallback k onProgress]> (callbacks h) |}).
  destruct (deliver_worker_run wrt msg h1 (mkCallback k onProgress))
    as (ps & v & Hd & Hs & Hp & Hps & Hres & Hrej).
  { apply lookup_insert_eq. }
  exists h1, {| workerAlive := workerAlive h1;
                callbacks := delete (Worker.msg_id msg) (callbacks h1) |}, ps, v.
  split_and!; try done.
  apply delete_insert_eq.
Qed.
(** Witness for X22: the photo sent to a worker that cannot encode AVIF. *)
Lemma worker_round_trip_witness :
  workerAlive Sample.hook = true
  /\ exists h1 h2 ps v,
       processImage 0 "img_a" Sample.photo "image/avif" Convert true true true Sample.hook
       = (h1, [PostMessage Sample.avifMessage])
       /\ deliverAll (ofWorker <$> snd (Worker.onmessage Sample.workerNoAvif
                                          Sample.avifMessage)) h1
          = (h2, (OnProgress 0 <$> ps) ++ [v])
       /\ callbacks h2 = delete "img_a" (callbacks Sample.hook)
       /\ workerAlive h2 = true
       /\ settles v = true /\ effectPromise v = Some 0%nat
       /\ ps <> []
       /\ (forall blob size,
             v = Resolve 0 blob size
             <-> Worker.Success "img_a" blob size
                 ∈ snd (Worker.onmessage Sample.workerNoAvif Sample.avifMessage))
       /\ (forall e, v = Reject 0 e -> e <> "").
Proof.
  split; [reflexivity|].
  exact (worker_round_trip_settles_once Sample.workerNoAvif Sample.hook 0 "img_a"
           Sample.photo "image/avif" Convert true true eq_refl).
Defined.

Lemma filter_none {A} (P : A -> Prop) `{forall x, Decision (P x)} (l : list A) :
  (forall x, x ∈ l -> ~ P x) -> filter P l = [].
Proof.
  induction l as [|a l IH]; intros Hl; [done|].
  rewrite filter_cons, decide_False by (apply Hl; by left).
  apply IH. intros x Hx. apply Hl. by right.
Qed.


(** X23.  When [processImage] is called a second time with an id whose
    first call has not been answered, the second callback replaces the
    first: whatever the worker posts afterwards, nothing reaches the first
    call's promise, which is never settled. *)
Theorem reused_id_orphans_first_promise h k1 k2 id f1 f2 fmt1 fmt2 m1 m2 c1 c2 p1 p2 rs :
  workerAlive h = true -> k1 <> k2 ->
  (forall i cb, callbacks h !! i = Some cb -> cb_promise cb <> k1) ->
  let h1 := fst (processImage k1 id f1 fmt1 m1 c1 p1 true h) in
  let h2 := fst (processImage k2 id f2 fmt2 m2 c2 p2 true h1) in
  (exists cb, callbacks h1 !! id = Some cb /\ cb_promise cb = k1)
  /\ forall e, e ∈ snd (deliverAll rs h2) -> effectPromise e <> Some k1.
Proof.
  intros Halive Hk Hfree. unfold processImage, onReaderLoad. rewrite Halive. simpl.
  split.
  - eexists. split; [apply lookup_insert_eq | done].
  - apply deliverAll_unknown_promise. simpl. intros i cb.
    rewrite insert_insert_eq.
    intros Hi. apply lookup_insert_Some in Hi as [[_ <-]|[_ Hi]]; simpl; [done|].
    by apply (Hfree i cb).
Qed.

(** Witness for X23: two calls for the id img_a on a fresh hook, then
    the answers of a worker. *)
Lemma reused_id_witness :
  workerAlive Sample.hook = true /\ 0%nat <> 1%nat
  /\ (forall e,
        e ∈ snd (deliverAll
                   (ofWorker <$> snd (Worker.onmessage Sample.workerNoAvif
                                        Sample.webpMessage))
                   (fst (processImage 1 "img_a" Sample.photo "image/webp" Convert
                           true true true
                           (fst (processImage 0 "img_a" Sample.photo "image/webp"
                                   Convert true true true Sample.hook))))) ->
        effectPromise e <> Some 0%nat).
Proof.
  assert (Hk : 0%nat <> 1%nat) by lia.
  split; [reflexivity|]. split; [exact Hk|].
  refine (proj2 (reused_id_orphans_first_promise Sample.hook 0 1 "img_a"
                   Sample.photo Sample.photo "image/webp" "image/webp" Convert Convert
                   true true true true _ eq_refl Hk _)).
  intros i cb Hi. vm_compute in Hi. discriminate Hi.
Defined.

Lemma onWorkerMessage_callbacks r h i cb :
  callbacks (fst (onWorkerMessage r h)) !! i = Some cb -> callbacks h !! i = Some cb.
Proof.
  unfold onWorkerMessage. destruct (callbacks h !! r_id r); [|done].
  destruct (r_type r); simpl; try done;
    intros H; by apply lookup_delete_Some in H as [_ ?].
Qed.

(** X24.  While the callbacks of the map hold different promises, the
    worker's messages settle a promise at most once, whatever the worker
    posts and in whatever order: a second verdict for an id finds no
    callback. *)
Theorem promise_settled_at_most_once rs h k :
  (forall i j cb cb', callbacks h !! i = Some cb -> callbacks h !! j = Some cb' ->
     cb_promise cb = cb_promise cb' -> i = j) ->
  (length (filter (fun e => settles e = true /\ effectPromise e = Some k)
             (snd (deliverAll rs h))) <= 1)%nat.
Proof.
  revert h. induction rs as [|r rest IH]; intros h Hinj; [simpl; lia|].
  rewrite deliverAll_cons. simpl snd. rewrite filter_app, length_app.
  assert (Hinj' : forall i j cb cb',
             callbacks (fst (onWorkerMessage r h)) !! i = Some cb ->
             callbacks (fst (onWorkerMessage r h)) !! j = Some cb' ->
             cb_promise cb = cb_promise cb' -> i = j).
  { intros i j cb cb' Hi Hj. apply Hinj; by eapply onWorkerMessage_callbacks. }
  specialize (IH _ Hinj').
  destruct (filter (fun e => settles e = true /\ effectPromise e = Some k)
              (snd (onWorkerMessage r h))) as [|e l] eqn:Ef; [simpl; done|].
  assert (He0 : e ∈ filter (fun e => settles e = true /\ effectPromise e = Some k)
                      (snd (onWorkerMessage r h))) by (rewrite Ef; by left).
  apply list_elem_of_filter in He0 as [[Hs Hp] He].
  assert (Hlen : (length (e :: l) <= 1)%nat).
  { rewrite <- Ef. etrans; [apply length_filter|].
    unfold onWorkerMessage, runCallback.
    destruct (callbacks h !! r_id r) as [cb|]; simpl; [|lia].
    destruct (r_type r); [destruct (r_result r) as [[? ?]|]| |
                          destruct (cb_onProgress cb)]; simpl; lia. }
  assert (Hrest : filter (fun e => settles e = true /\ effectPromise e = Some k)
                    (snd (deliverAll rest (fst (onWorkerMessage r h)))) = []).
  { apply filter_none. intros e' He' [_ Hp'].
    revert Hp'. eapply deliverAll_unknown_promise; [|exact He'].
    intros i cb Hi Hk.
    unfold onWorkerMessage, runCallback in He, Hi.
    destruct (callbacks h !! r_id r) as [cb0|] eqn:Ecb; [|by inversion He].
    simpl in He.
    destruct (r_type r) eqn:Et; simpl in Hi.
    - destruct (r_result r) as [[b s]|]; [|by inversion He].
      apply list_elem_of_singleton in He as ->. simpl in Hp. injection Hp as Hp.
      apply lookup_delete_Some in Hi as [Hne Hi]. apply Hne.
      apply (Hinj (r_id r) i cb0 cb); [done..|congruence].
    - apply list_elem_of_singleton in He as ->. simpl in Hp. injection Hp as Hp.
      apply lookup_delete_Some in Hi as [Hne Hi]. apply Hne.
      apply (Hinj (r_id r) i cb0 cb); [done..|congruence].
    - destruct (cb_onProgress cb0); [|by inversion He].
      apply list_elem_of_singleton in He as ->. done. }
  rewrite Hrest. simpl in *. lia.
Qed.
(** Witness for X24: one callback waiting, and a worker's answers
    delivered twice. *)
Lemma promise_settled_witness :
  (length (filter (fun e => settles e = true /\ effectPromise e = Some 0%nat)
             (snd (deliverAll
                     ((ofWorker <$> snd (Worker.onmessage Sample.workerNoAvif
                                           Sample.webpMessage))
                      ++ (ofWorker <$> snd (Worker.onmessage Sample.workerNoAvif
                                              Sample.webpMessage)))
                     Sample.waiting))) <= 1)%nat.
Proof.
  apply promise_settled_at_most_once.
  intros i j cb cb' Hi Hj _. simpl in Hi, Hj.
  apply lookup_singleton_Some in Hi as [<- _].
  apply lookup_singleton_Some in Hj as [<- _].
  reflexivity.
Defined.

End DispatcherFacts.

(** X25.  The drop zone hands [addFiles] the image files only, and only
    when there is one: then [addFiles] filters nothing out and appends one
    record per file, as many as the success toast says.  The counts of
    the toasts add up to the number of files dropped, and the error toast,
    shown only for a positive count, counts the files that are not
    images. *)
Theorem handleFiles_hands_over_images_only files :
  let count := fun t => match t with ToastError n | ToastSuccess n => n end in
  (snd (handleFiles files) = None <-> validFiles files = [])
  /\ (forall l, snd (handleFiles files) = Some l ->
        l = validFiles files /\ l <> [] /\ validFiles l = l
        /\ ToastSuccess (length l) ∈ fst (handleFiles files)
        /\ forall rev tok st,
             images (addFiles rev tok l st)
             = images st ++ imap (fun k f => newImage rev (globalSettings st) (tok k) f) l)
  /\ foldr (fun t acc => (count t + acc)%nat) 0%nat (fst (handleFiles files))
     = length files
  /\ (forall n, ToastError n ∈ fst (handleFiles files) ->
        (0 < n)%nat /\ n = length (filter (fun f => isImage f = false) files)).
Proof.
  simpl. unfold handleFiles, validFiles.
  set (imgs := filter (fun f => isImage f) files).
  assert (Hlen : (length imgs <= length files)%nat) by apply length_filter.
  assert (Hidem : filter (fun f => isImage f) imgs = imgs).
  { unfold imgs. rewrite list_filter_filter. apply list_filter_iff. tauto. }
  assert (Hrest : (length files - length imgs)%nat
                  = length (filter (fun f => isImage f = false) files)).
  { subst imgs. clear. induction files as [|f fs IH]; [done|].
    rewrite !filter_cons. destruct (isImage f) eqn:E; simpl.
    - exact IH.
    - rewrite <- IH.
      pose proof (length_filter (fun f => isImage f) fs). lia. }
  split_and!.
  - destruct imgs; simpl; done.
  - intros l. destruct imgs as [|x xs] eqn:E; simpl; [done|].
    intros [= <-]. split_and!; try done.
    + destruct (0 <? _)%nat; set_solver.
    + intros rev tok st. unfold addFiles, appendImages, validFiles. simpl.
      by rewrite Hidem.
  - destruct (0 <? length files - length imgs)%nat eqn:E1;
      destruct (0 <? length imgs)%nat eqn:E2; simpl;
      try apply Nat.ltb_lt in E1; try apply Nat.ltb_ge in E1;
      try apply Nat.ltb_lt in E2; try apply Nat.ltb_ge in E2; lia.
  - intros n Hin. rewrite <- Hrest.
    destruct (0 <? length files - length imgs)%nat eqn:E1.
    + apply Nat.ltb_lt in E1.
      apply elem_of_app in Hin as [Hin|Hin].
      * apply list_elem_of_singleton in Hin. injection Hin as ->. done.
      * destruct (0 <? length imgs)%nat; [|inversion Hin].
        apply list_elem_of_singleton in Hin. done.
    + simpl in Hin. destruct (0 <? length imgs)%nat; [|inversion Hin].
      apply list_elem_of_singleton in Hin. done.
Qed.

Lemma percentage_mono a b width :
  (0 < width)%Q -> (a <= b)%Q -> (a / width * 100 <= b / width * 100)%Q.
Proof.
  intros Hw Hab. apply Qmult_le_compat_r; [|done].
  unfold Qdiv. apply Qmult_le_compat_r; [done|].
  by apply Qlt_le_weak, Qinv_lt_0_compat.
Qed.

(** X26.  The comparison slider, over a container of positive width,
    is set to a position between 0 and 100: 0 for a pointer at or left of
    the container, 100 at or right of it, and the pointer's share of the
    width in between. *)
Theorem slider_position_within_track clientX left width :
  (0 < width)%Q ->
  (0 <= updateSliderPosition clientX left width <= 100)%Q
  /\ ((clientX <= left)%Q -> (updateSliderPosition clientX left width == 0)%Q)
  /\ ((left + width <= clientX)%Q -> (updateSliderPosition clientX left width == 100)%Q)
  /\ ((left <= clientX)%Q -> (clientX <= left + width)%Q ->
      (updateSliderPosition clientX left width == (clientX - left) / width * 100)%Q).
Proof.
  intros Hw. unfold updateSliderPosition.
  set (p := ((clientX - left) / width * 100)%Q).
  assert (Hw0 : ~ (width == 0)%Q) by (intros E; rewrite E in Hw; by apply Qlt_irrefl in Hw).
  assert (E0 : (0 / width * 100 == 0)%Q) by (by field).
  assert (E1 : (width / width * 100 == 100)%Q) by (by field).
  assert (Hlow : (clientX <= left)%Q -> (p <= 0)%Q).
  { intros H. rewrite <- E0. apply percentage_mono; [done|]. lra. }
  assert (Hin : (left <= clientX)%Q -> (0 <= p)%Q).
  { intros H. rewrite <- E0. apply percentage_mono; [done|]. lra. }
  assert (Hhigh : (left + width <= clientX)%Q -> (100 <= p)%Q).
  { intros H. rewrite <- E1. apply percentage_mono; [done|]. lra. }
  assert (Hmid : (clientX <= left + width)%Q -> (p <= 100)%Q).
  { intros H. rewrite <- E1. apply percentage_mono; [done|]. lra. }
  split; [split|split; [|split]].
  - apply Q.le_max_l.
  - apply Q.max_lub; [done|]. apply Q.le_min_l.
  - intros H. apply Q.max_l. eapply Qle_trans; [apply Q.le_min_r|]. by apply Hlow.
  - intros H. rewrite (Q.min_l _ _ (Hhigh H)). by apply Q.max_r.
  - intros H1 H2. rewrite (Q.min_r _ _ (Hmid H2)). apply Q.max_r. by apply Hin.
Qed.

(** Witness for X26: a pointer a quarter of the way along a container of
    width 200. *)
Lemma slider_position_witness :
  (0 < 200)%Q
  /\ (0 <= updateSliderPosition 150 100 200 <= 100)%Q
  /\ (updateSliderPosition 150 100 200 == 25)%Q.
Proof.
  assert (Hw : (0 < 200)%Q) by reflexivity.
  split; [exact Hw|].
  split; [exact (proj1 (slider_position_within_track 150 100 200 Hw))|].
  vm_compute. reflexivity.
Defined.

(* ===================================================================== *)
(** ** Further properties: file reads in flight *)
(* ===================================================================== *)

(** X27.  In the resizing revision [addFiles] appends its records only
    when its files have been read: the records then carry the global
    settings read at the call, whatever [updateGlobalSettings] did in
    between, and they are appended even after a [clearAll] that ran in
    between.  In the plain revision the same calls leave the collection
    empty. *)
Theorem pending_addFiles_outlives_clearAll tok tok' files p sys :
  (exists sys',
     run Resizing [EvAddFiles tok files; EvUpdateGlobalSettings p; EvClearAll;
                   EvFilesRead (length (adds sys)) tok'] sys = Some sys'
     /\ images (store sys')
        = imap (fun k f => newImage Resizing (globalSettings (store sys)) (tok' k) f)
               (validFiles files)
     /\ globalSettings (store sys') = mergeGlobal (globalSettings (store sys)) p
     /\ adds sys' = adds sys)
  /\ (exists sys',
        run Plain [EvAddFiles tok files; EvUpdateGlobalSettings p; EvClearAll] sys
        = Some sys'
        /\ images (store sys') = []).
Proof.
  split.
  - simpl. rewrite lookup_app_r by lia. rewrite Nat.sub_diag. simpl.
    eexists. split; [reflexivity|]. simpl. split_and!; try done.
    apply delete_last.
  - simpl. eexists. split; [reflexivity|]. done.
Qed.
